(** * A shallow embedding of the file-system watcher (FileSystemWatcher /
    WatchedLocation) of xf-hq/process.

    The TypeScript source keeps one [WatchedLocation] object per path string
    in a [Map] owned by the [FileSystemWatcher].  Objects live in a heap: the
    registry maps a path to an object identity, and every other reference to
    a location (the parent's [locations] map, the value returned by
    [watch]) is that identity.  The model keeps the same split:
    [locations : gmap string nat] is the registry and [heap : gmap nat Loc]
    holds the objects.

    The operating system (stat, readdir, home directory) is a parameter of
    type [Env].  The hub ([Subscribable.Controller]) and the shared demand
    abort controller come from the external package [@xf-common]; only the
    parts of their contract the watcher relies on are modelled (subscribe,
    dispose, synchronous in-order delivery to a snapshot of the listeners,
    and the "aggregate fired" callback). *)

From Stdlib Require Import String Ascii List Bool Arith Lia.
From stdpp Require Import base gmap strings list.
Import ListNotations.
Open Scope string_scope.

(* ------------------------------------------------------------------ *)
(** ** node:path (posix) — [Path.join] and [Path.dirname] *)

Module Path.

Definition slash : ascii := "/"%char.

(** Split a character list on ['/'] (like [String.prototype.split('/')]). *)
Fixpoint split_slash (cs : list ascii) : list (list ascii) :=
  match cs with
  | [] => [[]]
  | c :: r =>
      let parts := split_slash r in
      if Ascii.eqb c slash then [] :: parts
      else match parts with
           | p :: ps => (c :: p) :: ps
           | [] => [[c]]
           end
  end.

(** [normalizeString]: the segment loop of node's posix [normalize];
    [acc] is the result so far, last segment first. *)
Fixpoint normalize_segs (allowAboveRoot : bool) (acc : list string)
    (segs : list string) : list string :=
  match segs with
  | [] => acc
  | s :: r =>
      if String.eqb s "" || String.eqb s "." then normalize_segs allowAboveRoot acc r
      else if String.eqb s ".." then
        match acc with
        | x :: acc' =>
            if String.eqb x ".."
            then normalize_segs allowAboveRoot
                   (if allowAboveRoot then s :: acc else acc) r
            else normalize_segs allowAboveRoot acc' r
        | [] =>
            normalize_segs allowAboveRoot (if allowAboveRoot then [s] else []) r
        end
      else normalize_segs allowAboveRoot (s :: acc) r
  end.

Fixpoint join_segs (segs : list string) : list ascii :=
  match segs with
  | [] => []
  | [s] => list_ascii_of_string s
  | s :: r => app (list_ascii_of_string s) (slash :: join_segs r)
  end.

Definition last_char (cs : list ascii) : option ascii := List.last (map Some cs) None.

(** [path.posix.normalize]. *)
Definition normalize (p : string) : string :=
  let cs := list_ascii_of_string p in
  match cs with
  | [] => "."
  | c0 :: _ =>
      let isAbsolute := Ascii.eqb c0 slash in
      let trailingSeparator :=
        match last_char cs with Some c => Ascii.eqb c slash | None => false end in
      let s := join_segs (rev (normalize_segs (negb isAbsolute) [] (map string_of_list_ascii (split_slash cs)))) in
      match s with
      | [] => if isAbsolute then "/" else if trailingSeparator then "./" else "."
      | _ =>
          let s' := if trailingSeparator then app s [slash] else s in
          string_of_list_ascii (if isAbsolute then slash :: s' else s')
      end
  end.

(** [path.posix.join(a, b)]: the non-empty arguments joined by ['/'],
    then normalised; ['.'] when both are empty. *)
Definition join (a b : string) : string :=
  match a, b with
  | EmptyString, EmptyString => "."
  | EmptyString, _ => normalize b
  | _, EmptyString => normalize a
  | _, _ => normalize (a ++ "/" ++ b)
  end.

(** The scan of [path.posix.dirname] over the characters at positions
    [1 ..] read from the end; returns the characters before [end]. *)
Fixpoint dirname_scan (matchedSlash : bool) (rcs : list ascii) : option (list ascii) :=
  match rcs with
  | [] => None
  | c :: r =>
      if Ascii.eqb c slash
      then (if matchedSlash then dirname_scan matchedSlash r else Some r)
      else dirname_scan false r
  end.

(** [path.posix.dirname]. *)
Definition dirname (p : string) : string :=
  match list_ascii_of_string p with
  | [] => "."
  | c0 :: rest =>
      let hasRoot := Ascii.eqb c0 slash in
      match dirname_scan true (rev rest) with
      | None => if hasRoot then "/" else "."
      | Some r =>
          if hasRoot && (match r with [] => true | _ => false end)
          then "//"
          else string_of_list_ascii (c0 :: rev r)
      end
  end.

End Path.

(* ------------------------------------------------------------------ *)
(** ** The operating system *)

(** The kind an [FS.Stats] reports: [isFile()], [isDirectory()], or
    neither (character device, FIFO, socket). *)
Inductive Kind := KFile | KDir | KOther.

(** [FS.Stats], the fields the watcher reads. *)
Record Stats := mkStats {
  st_kind : Kind;
  st_birthtimeMs : Z;
  st_mtimeMs : Z;
  st_size : Z }.

Definition isFileStats (s : Stats) : bool :=
  match st_kind s with KFile => true | _ => false end.
Definition isDirectoryStats (s : Stats) : bool :=
  match st_kind s with KDir => true | _ => false end.

(** An [FS.Dirent] of [readdirSync(path, { withFileTypes: true })]. *)
Record Dirent := mkDirent { d_name : string; d_kind : Kind }.

(** The outcome of [FS.statSync] / [FS.readdirSync]: a value, or the
    thrown error's [code]. *)
Inductive StatOutcome := StatOk (s : Stats) | StatErr (code : string).
Inductive ReaddirOutcome := ReaddirOk (es : list Dirent) | ReaddirErr (code : string).

(** The outcome of [FS.watch(path, ...)]: [None] when it returns a
    handle, [Some code] when it throws. *)
Record Env := mkEnv {
  env_stat : string -> StatOutcome;
  env_readdir : string -> ReaddirOutcome;
  env_homedir : string;
  env_watch : string -> option string }.

(** Thrown errors: an OS error rethrown, or one of the watcher's own
    "This is a bug." errors. *)
Inductive Error := OSError (code : string) | BugError (msg : string).

Inductive Res (A : Type) := Ok (a : A) | Throw (e : Error).
Arguments Ok {A} a.
Arguments Throw {A} e.

Definition res_bind {A B} (m : Res A) (k : A -> Res B) : Res B :=
  match m with Ok a => k a | Throw e => Throw e end.
Notation "'let!' x := m 'in' k" := (res_bind m (fun x => k))
  (at level 200, x name, m at level 100, k at level 200).

(** [WatchedLocation.getStats]. *)
Definition getStats (env : Env) (path : string) : Res (option Stats) :=
  match env_stat env path with
  | StatOk s => Ok (Some s)
  | StatErr code =>
      if String.eqb code "ENOENT" then Ok None   (* the file doesn't exist *)
      else Throw (OSError code)                  (* rethrow *)
  end.

(* ------------------------------------------------------------------ *)
(** ** JS [Map] and [Set] as insertion-ordered lists *)

(** [SetSource.Manual.add]: appended unless present. *)
Definition set_add (x : string) (s : list string) : list string :=
  if existsb (String.eqb x) s then s else s ++ [x].
Definition set_delete (x : string) (s : list string) : list string :=
  List.filter (fun y => negb (String.eqb x y)) s.

(** [Map.prototype.set]: replaced in place when the key is present. *)
Fixpoint map_set {V} (k : string) (v : V) (m : list (string * V)) : list (string * V) :=
  match m with
  | [] => [(k, v)]
  | (k', v') :: r => if String.eqb k k' then (k, v) :: r else (k', v') :: map_set k v r
  end.
Definition map_delete {V} (k : string) (m : list (string * V)) : list (string * V) :=
  List.filter (fun kv => negb (String.eqb k (fst kv))) m.

(* ------------------------------------------------------------------ *)
(** ** WatchedLocation *)

Inductive Event := EvAdd | EvDelete | EvChange.
Inductive NativeEvent := NRename | NChange.

(** Listeners subscribed to a location's hub: a caller's listener (by its
    identity), the self-subscription of [online] ([onSubscriptionEvent])
    and the forwarding subscription of [attachChild]. *)
Inductive Listener := LUser (u : nat) | LSelf | LForward.

(** An [FS.FSWatcher]; [close()] clears [h_open]. *)
Record Handle := mkHandle { h_id : nat; h_open : bool }.

(** The [SharedDemandAbortController] of [attachChild], with the signals
    attached to it and the forwarding subscription [sub] its abort
    listener closes over. *)
Record ChildrenAgg := mkChildrenAgg { ca_id : nat; ca_signals : list nat; ca_sub : nat }.

Record Loc := mkLoc {
  l_path : string;
  l_parentPath : string;                          (* #parentPath *)
  l_shouldWatchParent : bool;                     (* #shouldWatchParent *)
  l_hub : list (nat * Listener);                  (* #controller's subscriptions *)
  l_watcher : option Handle;                      (* #watcher *)
  l_stats : option Stats;                         (* #stats *)
  l_watchingParent : option nat;                  (* #watchingParent *)
  l_attachedChildren : option (list (string * nat));
  l_childrenAbortController : option ChildrenAgg;
  l_filePaths : list string;
  l_subdirPaths : list string;
  l_entries : list (string * Stats);
  l_sub : option nat }.                           (* #sub *)

Definition set_hub (h : list (nat * Listener)) (l : Loc) : Loc :=
  mkLoc (l_path l) (l_parentPath l) (l_shouldWatchParent l) h (l_watcher l) (l_stats l)
    (l_watchingParent l) (l_attachedChildren l) (l_childrenAbortController l)
    (l_filePaths l) (l_subdirPaths l) (l_entries l) (l_sub l).
Definition set_watcher (w : option Handle) (l : Loc) : Loc :=
  mkLoc (l_path l) (l_parentPath l) (l_shouldWatchParent l) (l_hub l) w (l_stats l)
    (l_watchingParent l) (l_attachedChildren l) (l_childrenAbortController l)
    (l_filePaths l) (l_subdirPaths l) (l_entries l) (l_sub l).
Definition set_stats (s : option Stats) (l : Loc) : Loc :=
  mkLoc (l_path l) (l_parentPath l) (l_shouldWatchParent l) (l_hub l) (l_watcher l) s
    (l_watchingParent l) (l_attachedChildren l) (l_childrenAbortController l)
    (l_filePaths l) (l_subdirPaths l) (l_entries l) (l_sub l).
Definition set_watchingParent (a : option nat) (l : Loc) : Loc :=
  mkLoc (l_path l) (l_parentPath l) (l_shouldWatchParent l) (l_hub l) (l_watcher l) (l_stats l)
    a (l_attachedChildren l) (l_childrenAbortController l)
    (l_filePaths l) (l_subdirPaths l) (l_entries l) (l_sub l).
Definition set_children (c : option (list (string * nat))) (ca : option ChildrenAgg)
    (l : Loc) : Loc :=
  mkLoc (l_path l) (l_parentPath l) (l_shouldWatchParent l) (l_hub l) (l_watcher l) (l_stats l)
    (l_watchingParent l) c ca
    (l_filePaths l) (l_subdirPaths l) (l_entries l) (l_sub l).
Definition set_listing (fp sp : list string) (en : list (string * Stats)) (l : Loc) : Loc :=
  mkLoc (l_path l) (l_parentPath l) (l_shouldWatchParent l) (l_hub l) (l_watcher l) (l_stats l)
    (l_watchingParent l) (l_attachedChildren l) (l_childrenAbortController l)
    fp sp en (l_sub l).
Definition set_sub (s : option nat) (l : Loc) : Loc :=
  mkLoc (l_path l) (l_parentPath l) (l_shouldWatchParent l) (l_hub l) (l_watcher l) (l_stats l)
    (l_watchingParent l) (l_attachedChildren l) (l_childrenAbortController l)
    (l_filePaths l) (l_subdirPaths l) (l_entries l) s.

(** The constructor of [WatchedLocation]. *)
Definition newLocation (env : Env) (path : string) : Loc :=
  let isHomeDir := String.eqb path (env_homedir env) in
  let parentPath := Path.dirname path in
  let shouldWatchParent := negb isHomeDir && negb (String.eqb parentPath "/") in
  mkLoc path parentPath shouldWatchParent [] None None None None None [] [] [] None.

(** The getters of the public view [FileSystemWatcher.Location]. *)
Definition exists_ (l : Loc) : bool :=
  match l_stats l with Some _ => true | None => false end.
Definition isFile (l : Loc) : bool :=
  match l_stats l with Some s => isFileStats s | None => false end.
Definition isDirectory (l : Loc) : bool :=
  match l_stats l with Some s => isDirectoryStats s | None => false end.
Definition dateCreated (l : Loc) : Z :=
  match l_stats l with Some s => st_birthtimeMs s | None => 0%Z end.
Definition dateModified (l : Loc) : Z :=
  match l_stats l with Some s => st_mtimeMs s | None => 0%Z end.
Definition fileSize (l : Loc) : Z :=
  match l_stats l with Some s => st_size s | None => 0%Z end.

(* ------------------------------------------------------------------ *)
(** ** The watcher state *)

Record FSW := mkFSW {
  locations : gmap string nat;          (* FileSystemWatcher.#locations *)
  heap : gmap nat Loc;                  (* WatchedLocation objects by identity *)
  next_id : nat;                        (* fresh identities (objects, subscriptions,
                                           watch handles, abort controllers) *)
  aborted : list nat;                   (* AbortSignals that have fired *)
  opened : list string;                 (* FS.watch calls, by path *)
  delivered : list (nat * Event * string) }.  (* calls of callers' listeners *)

Definition fresh (w : FSW) : FSW * nat :=
  (mkFSW (locations w) (heap w) (S (next_id w)) (aborted w) (opened w) (delivered w),
   next_id w).

Definition upd_loc (id : nat) (l : Loc) (w : FSW) : FSW :=
  mkFSW (locations w) (<[id := l]> (heap w)) (next_id w) (aborted w) (opened w) (delivered w).

(** [FileSystemWatcher._ensureLocation]. *)
Definition ensureLocation (env : Env) (w : FSW) (path : string) : FSW * nat :=
  match locations w !! path with
  | Some id => (w, id)
  | None =>
      let id := next_id w in
      (mkFSW (<[path := id]> (locations w)) (<[id := newLocation env path]> (heap w))
         (S id) (aborted w) (opened w) (delivered w), id)
  end.

(** [Subscribable.Controller.subscribe]: the listener is appended to the
    hub; the result is the subscription. *)
Definition subscribe (w : FSW) (id : nat) (ls : Listener) : FSW * nat :=
  let '(w1, sid) := fresh w in
  match heap w1 !! id with
  | Some l => (upd_loc id (set_hub (l_hub l ++ [(sid, ls)]) l) w1, sid)
  | None => (w1, sid)
  end.

(** [dispose(sub)]: the subscription leaves the hub. *)
Definition dispose (w : FSW) (id sid : nat) : FSW :=
  match heap w !! id with
  | Some l => upd_loc id (set_hub (List.filter (fun e => negb (Nat.eqb (fst e) sid)) (l_hub l)) l) w
  | None => w
  end.

(** [FileSystemWatcher.watch]: the location for [path], with the caller's
    listener [u] subscribed to its hub.  (Disposing that subscription when
    the caller's [abort] fires is [dispose].) *)
Definition watch (env : Env) (w : FSW) (path : string) (u : nat) : FSW * nat :=
  let '(w1, id) := ensureLocation env w path in
  let '(w2, _) := subscribe w1 id (LUser u) in
  (w2, id).

(** [WatchedLocation.forwardEventToChildLocation]; [signal_] signals the
    hub of the location found. *)
Definition forwardEventToChildLocation
    (signal_ : FSW -> nat -> Event -> string -> option Stats -> Res FSW)
    (w : FSW) (self : Loc) (event : Event) (path : string) (stats : option Stats)
    : Res FSW :=
  match locations w !! path with
  | Some loc => signal_ w loc event (Path.join (l_path self) path) stats
  | None => Ok w
  end.

(** [WatchedLocation.onSubscriptionEvent]. *)
Definition onSubscriptionEvent (w : FSW) (id : nat) (stats : option Stats) : FSW :=
  match heap w !! id with
  | Some l => upd_loc id (set_stats stats l) w
  | None => w
  end.

Definition log_delivery (w : FSW) (d : nat * Event * string) : FSW :=
  mkFSW (locations w) (heap w) (next_id w) (aborted w) (opened w) (delivered w ++ [d]).

(** The delivery loop of [controller.signal(event, path, stats)] on the hub
    of location [id] (the object [self]): each listener in [subs], in
    subscription order; a listener that throws ends the call.  [signal_]
    signals another location's hub. *)
Fixpoint deliver (signal_ : FSW -> nat -> Event -> string -> option Stats -> Res FSW)
    (env : Env) (id : nat) (self : Loc) (event : Event) (path : string)
    (stats : option Stats) (w : FSW) (subs : list (nat * Listener)) : Res FSW :=
  match subs with
  | [] => Ok w
  | (_, LUser u) :: r =>
      deliver signal_ env id self event path stats (log_delivery w (u, event, path)) r
  | (_, LSelf) :: r =>
      deliver signal_ env id self event path stats (onSubscriptionEvent w id stats) r
  | (_, LForward) :: r =>
      (* (event, path) => this.forwardEventToChildLocation(event, path, this.getStats(path)) *)
      let! st := getStats env path in
      let! w' := forwardEventToChildLocation signal_ w self event path st in
      deliver signal_ env id self event path stats w' r
  end.

(** [controller.signal(event, path, stats)]: synchronous delivery to the
    listeners subscribed when the call starts.  [fuel] bounds the depth of
    nested forwarding. *)
Fixpoint signal (fuel : nat) (env : Env) (w : FSW) (id : nat) (event : Event)
    (path : string) (stats : option Stats) {struct fuel} : Res FSW :=
  match fuel with
  | O => Ok w
  | S fuel' =>
      match heap w !! id with
      | None => Ok w
      | Some self => deliver (signal fuel' env) env id self event path stats w (l_hub self)
      end
  end.

(** The listing side of [WatchedLocation.onNativeWatcherEvent]: the
    location after the callback's mutations and the tuple it signals
    ([None] when it returns early). *)
Definition nativeEventStep (env : Env) (l : Loc) (nativeEvent : NativeEvent)
    (filename : option string) : Res (Loc * option (Event * string * option Stats)) :=
  match filename with
  | None | Some EmptyString => Ok (l, None)      (* if (!filename) return; *)
  | Some fn =>
      let path := Path.join (l_path l) fn in
      let! stats := getStats env path in
      match nativeEvent with
      | NRename =>
          match stats with
          | Some s =>
              let en := map_set fn s (l_entries l) in
              if isDirectoryStats s
              then Ok (set_listing (l_filePaths l) (set_add path (l_subdirPaths l)) en l,
                       Some (EvAdd, path, stats))
              else Ok (set_listing (set_add path (l_filePaths l)) (l_subdirPaths l) en l,
                       Some (EvAdd, path, stats))
          | None =>
              Ok (set_listing (set_delete path (l_filePaths l)) (set_delete path (l_subdirPaths l))
                    (map_delete fn (l_entries l)) l,
                  Some (EvDelete, path, stats))
          end
      | NChange => Ok (l, Some (EvChange, path, stats))
      end
  end.

(** [WatchedLocation.onNativeWatcherEvent]. *)
Definition onNativeWatcherEvent (fuel : nat) (env : Env) (w : FSW) (id : nat)
    (nativeEvent : NativeEvent) (filename : option string) : Res FSW :=
  match heap w !! id with
  | None => Ok w
  | Some l =>
      let! r := nativeEventStep env l nativeEvent filename in
      let w' := upd_loc id (fst r) w in
      match snd r with
      | None => Ok w'
      | Some (event, path, stats) => signal fuel env w' id event path stats
      end
  end.

(** The classification loop of [initializeEntries]. *)
Definition classifyEntries (path : string) (es : list Dirent) (fp sp : list string)
    : list string * list string :=
  fold_left (fun acc e =>
      match d_kind e with
      | KFile => (set_add (Path.join path (d_name e)) (fst acc), snd acc)
      | KDir => (fst acc, set_add (Path.join path (d_name e)) (snd acc))
      | KOther => acc
      end) es (fp, sp).

Definition initializeEntries_bug (path : string) : string :=
  "Expected empty filePaths and subdirPaths for " ++ path ++
  ", but found non-empty arrays. This is a bug.".
Definition initializeWatcher_bug : string :=
  "Watcher already initialized ... this shouldn't have happened. This is a bug.".

(** [WatchedLocation.initializeEntries]. *)
Definition initializeEntries (env : Env) (l : Loc) : Res Loc :=
  if isFile l || negb (exists_ l) then Ok l
  else
    match env_readdir env (l_path l) with
    | ReaddirErr code => Throw (OSError code)
    | ReaddirOk es =>
        if (Nat.ltb 0 (length (l_filePaths l))) || (Nat.ltb 0 (length (l_subdirPaths l)))
        then Throw (BugError (initializeEntries_bug (l_path l)))
        else
          let '(fp, sp) := classifyEntries (l_path l) es (l_filePaths l) (l_subdirPaths l) in
          Ok (set_listing fp sp (l_entries l) l)
    end.

(** [WatchedLocation.initializeWatcher]; an [FS.watch] call that returns
    a handle is recorded in [opened], one that throws propagates its
    error.  (The handle's asynchronous ['error'] listener is not
    modelled.) *)
Definition initializeWatcher (env : Env) (w : FSW) (id : nat) : Res FSW :=
  match heap w !! id with
  | None => Ok w
  | Some l =>
      if isFile l then Ok w
      else match l_watcher l with
           | Some _ => Throw (BugError initializeWatcher_bug)
           | None =>
               match env_watch env (l_path l) with
               | Some code => Throw (OSError code)
               | None =>
                   let '(w1, hid) := fresh w in
                   let w2 := upd_loc id (set_watcher (Some (mkHandle hid true)) l) w1 in
                   Ok (mkFSW (locations w2) (heap w2) (next_id w2) (aborted w2)
                         (opened w2 ++ [l_path l]) (delivered w2))
               end
           end
  end.

(** [WatchedLocation.attachChild(child, signal)]; [child] is given by its
    identity [cid] and its [path]. *)
Definition attachChild (w : FSW) (pid cid : nat) (cpath : string) (sig : nat) : FSW :=
  match heap w !! pid with
  | None => w
  | Some p =>
      let children := default [] (l_attachedChildren p) in
      match l_childrenAbortController p with
      | Some ca =>
          upd_loc pid (set_children (Some (map_set cpath cid children))
                         (Some (mkChildrenAgg (ca_id ca) (ca_signals ca ++ [sig]) (ca_sub ca))) p) w
      | None =>
          let '(w1, sub) := subscribe w pid LForward in
          let '(w2, aid) := fresh w1 in
          match heap w2 !! pid with
          | Some p2 =>
              upd_loc pid (set_children (Some (map_set cpath cid children))
                             (Some (mkChildrenAgg aid [sig] sub)) p2) w2
          | None => w2
          end
      end
  end.

(** The abort listener of the [SharedDemandAbortController] created by
    [attachChild], run when that aggregate fires. *)
Definition childrenAggregateFired (w : FSW) (pid : nat) : FSW :=
  match heap w !! pid with
  | None => w
  | Some p =>
      match l_childrenAbortController p with
      | None => w
      | Some ca => dispose (upd_loc pid (set_children None None p) w) pid (ca_sub ca)
      end
  end.

(** [WatchedLocation.attachToParentLocation]. *)
Definition attachToParentLocation (env : Env) (w : FSW) (id : nat) : FSW :=
  match heap w !! id with
  | None => w
  | Some l =>
      if negb (l_shouldWatchParent l) then w
      else
        let '(w1, sig) := fresh w in
        let w2 := upd_loc id (set_watchingParent (Some sig) l) w1 in
        let '(w3, pid) := ensureLocation env w2 (l_parentPath l) in
        attachChild w3 pid id (l_path l) sig
  end.

Definition modify_loc (w : FSW) (id : nat) (f : Loc -> Res Loc) : Res FSW :=
  match heap w !! id with
  | None => Ok w
  | Some l => let! l' := f l in Ok (upd_loc id l' w)
  end.

(** [WatchedLocation.online]. *)
Definition online (env : Env) (w : FSW) (id : nat) : Res FSW :=
  match heap w !! id with
  | None => Ok w
  | Some l =>
      let! st := getStats env (l_path l) in
      let w1 := upd_loc id (set_stats st l) w in
      let! w2 := modify_loc w1 id (initializeEntries env) in
      let! w3 := initializeWatcher env w2 id in
      let w4 := attachToParentLocation env w3 id in
      let '(w5, sub) := subscribe w4 id LSelf in
      modify_loc w5 id (fun l => Ok (set_sub (Some sub) l))
  end.

(** [WatchedLocation.offline]. *)
Definition offline (w : FSW) (id : nat) : FSW :=
  match heap w !! id with
  | None => w
  | Some l =>
      let closed := option_map (fun h => mkHandle (h_id h) false) (l_watcher l) in
      let ab := match l_watchingParent l with Some a => app (aborted w) [a] | None => aborted w end in
      let l' := set_listing [] [] (l_entries l) (set_watcher closed l) in
      let w' := mkFSW (delete (l_path l) (locations w)) (<[id := l']> (heap w))
                  (next_id w) ab (opened w) (delivered w) in
      match l_sub l with
      | Some sub => dispose w' id sub
      | None => w'
      end
  end.

(* ------------------------------------------------------------------ *)
(** ** Concrete inputs *)

Definition ex_dir : Stats := mkStats KDir 1 2 0.
Definition ex_file : Stats := mkStats KFile 3 4 10.

(** A file system with the directories [/tmp] and [/tmp/d] and the file
    [/tmp/d/a.txt]; [/tmp/d/loop] is a symbolic link loop. *)
Definition ex_stat (p : string) : StatOutcome :=
  if String.eqb p "/tmp" then StatOk ex_dir
  else if String.eqb p "/tmp/d" then StatOk ex_dir
  else if String.eqb p "/tmp/d/a.txt" then StatOk ex_file
  else if String.eqb p "/tmp/d/loop" then StatErr "ELOOP"
  else StatErr "ENOENT".

Definition ex_env : Env := mkEnv ex_stat
  (fun p => match ex_stat p with
            | StatOk s => if isDirectoryStats s then ReaddirOk [] else ReaddirErr "ENOTDIR"
            | StatErr c => ReaddirErr c
            end)
  "/home/u"
  (fun p => match ex_stat p with StatOk _ => None | StatErr c => Some c end).

Definition w0 : FSW := mkFSW ∅ ∅ 0 [] [] [].

Definition res_default (r : Res FSW) : FSW :=
  match r with Ok w => w | Throw _ => w0 end.

(** [watch("/tmp/d", _, listener 1)] brought online (location 0). *)
Definition ex_online : FSW :=
  res_default (let '(w1, d) := watch ex_env w0 "/tmp/d" 1 in online ex_env w1 d).

(** Then [watch("/tmp/d/a.txt", _, listener 2)] brought online. *)
Definition ex_child : FSW :=
  res_default (let '(w1, a) := watch ex_env ex_online "/tmp/d/a.txt" 2 in online ex_env w1 a).

(** Then the native watch of [/tmp/d] reports [rename] for [a.txt]. *)
Definition ex_added : Res FSW := onNativeWatcherEvent 8 ex_env ex_child 0 NRename (Some "a.txt").

Definition ex_added_state : FSW := res_default ex_added.

Definition loc_at (w : FSW) (id : nat) : Loc :=
  match heap w !! id with Some l => l | None => newLocation ex_env "" end.

(* ------------------------------------------------------------------ *)
(** ** Auxiliary definitions for the statements *)

(** The location object after [offline()]. *)
Definition offline_loc (l : Loc) : Loc :=
  let l' := set_listing [] [] (l_entries l)
              (set_watcher (option_map (fun h => mkHandle (h_id h) false) (l_watcher l)) l) in
  match l_sub l with
  | Some sub => set_hub (List.filter (fun e => negb (Nat.eqb (fst e) sub)) (l_hub l')) l'
  | None => l'
  end.

(** A file system where [readdirSync] succeeds only on directories (it
    fails with [ENOTDIR] on files, devices, FIFOs and sockets). *)
Definition readdir_dirs_only (env : Env) : Prop :=
  forall p es, env_readdir env p = ReaddirOk es ->
    exists s, env_stat env p = StatOk s /\ st_kind s = KDir.

Definition ex_watched_d : FSW := fst (watch ex_env w0 "/tmp/d" 1).

(** The record of calls of callers' listeners only grows. *)
Definition grows (w w' : FSW) : Prop := exists sfx, delivered w' = app (delivered w) sfx.

(** Registered identities denote objects, and fresh identities are new. *)
Definition wf (w : FSW) : Prop :=
  (forall p i, locations w !! p = Some i -> is_Some (heap w !! i)) /\
  (forall i l, heap w !! i = Some l -> i < next_id w).

Definition hub_has (w : FSW) (i : nat) (x : Listener) : Prop :=
  exists l, heap w !! i = Some l /\ In x (map snd (l_hub l)).

(** Successive [watch] calls [(path, listener)]. *)
Definition watch_all (env : Env) (w : FSW) (ws : list (string * nat)) : FSW :=
  fold_left (fun acc q => fst (watch env acc (fst q) (snd q))) ws w.

(** [Map.prototype.get]. *)
Fixpoint map_get {V} (k : string) (m : list (string * V)) : option V :=
  match m with
  | [] => None
  | (k', v) :: r => if String.eqb k k' then Some v else map_get k r
  end.

(** The listing containers hold no duplicate path and no duplicate name. *)
Definition listing_nodup (l : Loc) : Prop :=
  List.NoDup (l_filePaths l) /\ List.NoDup (l_subdirPaths l) /\ List.NoDup (map fst (l_entries l)).

(** [ex_env] where [/tmp/d/a.txt] has been replaced by a directory. *)
Definition ex_env_replaced : Env := mkEnv
  (fun p => if String.eqb p "/tmp/d/a.txt" then StatOk ex_dir else ex_stat p)
  (env_readdir ex_env) (env_homedir ex_env) (env_watch ex_env).

(** A directory listing with a duplicate name and an entry of another kind. *)
Definition ex_listing : list Dirent :=
  [mkDirent "a.txt" KFile; mkDirent "sub" KDir; mkDirent "fifo" KOther; mkDirent "a.txt" KFile].

(** Location [id] exists and holds [stats]. *)
Definition stats_at (id : nat) (stats : option Stats) (w : FSW) : Prop :=
  exists l, heap w !! id = Some l /\ l_stats l = stats.

(* ------------------------------------------------------------------ *)
(** ** The demand protocol *)

(** The steps of the demand protocol thread the state through and let
    exceptions propagate: a step that throws keeps the mutations made
    before the [throw], as JavaScript does. *)
Inductive Out (A : Type) := Done (a : A) | Raise (e : Error).
Arguments Done {A} a.
Arguments Raise {A} e.

Definition St (A : Type) : Type := FSW -> Out A * FSW.

Definition st_ret {A} (a : A) : St A := fun w => (Done a, w).
Definition st_bind {A B} (m : St A) (k : A -> St B) : St B :=
  fun w => match m w with
           | (Done a, w1) => k a w1
           | (Raise e, w1) => (Raise e, w1)
           end.
Notation "'let@' x := m 'in' k" := (st_bind m (fun x => k))
  (at level 200, x name, m at level 100, k at level 200).

(** The statements of the code above as steps: one that throws before it
    mutates anything ([getStats], [initializeEntries], [initializeWatcher]),
    an update that cannot throw, a read of an object, a fresh identity, a
    subscription. *)
Definition st_res {A} (r : Res A) : St A :=
  fun w => match r with Ok a => (Done a, w) | Throw e => (Raise e, w) end.
Definition st_try (f : FSW -> Res FSW) : St unit :=
  fun w => match f w with Ok w' => (Done tt, w') | Throw e => (Raise e, w) end.
Definition st_upd (f : FSW -> FSW) : St unit := fun w => (Done tt, f w).
Definition st_get (id : nat) : St (option Loc) := fun w => (Done (heap w !! id), w).
Definition st_fresh : St nat := fun w => (Done (snd (fresh w)), fst (fresh w)).
Definition st_modify_loc (id : nat) (f : Loc -> Loc) : St unit :=
  st_upd (fun w => match heap w !! id with Some l => upd_loc id (f l) w | None => w end).
Definition st_subscribe (id : nat) (ls : Listener) : St nat :=
  fun w => (Done (snd (subscribe w id ls)), fst (subscribe w id ls)).

(** [FileSystemWatcher._ensureLocation]. *)
Definition st_ensure (env : Env) (path : string) : St nat :=
  fun w => (Done (snd (ensureLocation env w path)), fst (ensureLocation env w path)).

(** Modelled from the spec: the demand on a location is its callers'
    listeners and its forwarding subscription; the self-subscription of
    [online] only keeps the stat snapshot current and is no demand (spec
    §4.2 step 5 and the glossary's "Demand"). *)
Definition is_demand (e : nat * Listener) : bool :=
  match snd e with LSelf => false | _ => true end.
Definition has_demand (l : Loc) : bool := existsb is_demand (l_hub l).

(** Modelled from the spec: [controller.subscribe(listener)] of
    [Subscribable.Controller] (@xf-common/dynamic, not under src/), whose
    demand observer is the location itself: the listener is appended to
    the hub and, when it is the location's first demand, the observer's
    [online()] ([online_]) runs before [subscribe] returns; an exception
    of [online()] propagates out of [subscribe] (spec §3: a location is
    brought online "the moment it is first needed"). *)
Definition subscribe_d (online_ : nat -> St unit) (id : nat) (ls : Listener) : St nat :=
  let@ ol := st_get id in
  let@ sid := st_subscribe id ls in
  let@ _ := match ol with
            | Some l => if negb (has_demand l) && is_demand (sid, ls) then online_ id
                        else st_ret tt
            | None => st_ret tt
            end in
  st_ret sid.

(** [WatchedLocation.attachChild(child, signal)]; the forwarding
    subscription goes through [subscribe_d]. *)
Definition attachChild_d (online_ : nat -> St unit) (pid cid : nat) (cpath : string)
    (sig : nat) : St unit :=
  let@ op := st_get pid in
  match op with
  | None => st_ret tt
  | Some p =>
      (* const children = this.#attachedChildren ??= new Map() *)
      let@ _ := st_modify_loc pid (fun l =>
                  set_children (Some (default [] (l_attachedChildren l)))
                    (l_childrenAbortController l) l) in
      let@ ca := match l_childrenAbortController p with
                 | Some ca => st_ret ca
                 | None =>
                     let@ sub := subscribe_d online_ pid LForward in
                     let@ aid := st_fresh in      (* new SharedDemandAbortController() *)
                     let ca := mkChildrenAgg aid [] sub in
                     let@ _ := st_modify_loc pid (fun l =>
                                 set_children (l_attachedChildren l) (Some ca) l) in
                     st_ret ca
                 end in
      (* childrenAbortController.attach(signal); children.set(child.path, child) *)
      st_modify_loc pid (fun l =>
        set_children (Some (map_set cpath cid (default [] (l_attachedChildren l))))
          (Some (mkChildrenAgg (ca_id ca) (ca_signals ca ++ [sig]) (ca_sub ca))) l)
  end.

(** [WatchedLocation.attachToParentLocation]. *)
Definition attachToParentLocation_d (online_ : nat -> St unit) (env : Env) (id : nat) : St unit :=
  let@ ol := st_get id in
  match ol with
  | None => st_ret tt
  | Some l =>
      if negb (l_shouldWatchParent l) then st_ret tt
      else
        let@ sig := st_fresh in                                 (* new AbortController() *)
        let@ _ := st_modify_loc id (set_watchingParent (Some sig)) in
        let@ pid := st_ensure env (l_parentPath l) in
        attachChild_d online_ pid id (l_path l) sig
  end.

(** [WatchedLocation.online]; [n] bounds the length of the chain of
    parents brought online with it. *)
Fixpoint online_d (n : nat) (env : Env) (id : nat) : St unit :=
  match n with
  | O => st_ret tt
  | S n' =>
      let@ ol := st_get id in
      match ol with
      | None => st_ret tt
      | Some l =>
          let@ st := st_res (getStats env (l_path l)) in
          let@ _ := st_modify_loc id (set_stats st) in
          let@ _ := st_try (fun w => modify_loc w id (initializeEntries env)) in
          let@ _ := st_try (fun w => initializeWatcher env w id) in
          let@ _ := attachToParentLocation_d (online_d n' env) env id in
          (* the self-subscription is no demand: [subscribe_d] would not
             run the observer *)
          let@ sub := st_subscribe id LSelf in
          st_modify_loc id (set_sub (Some sub))
      end
  end.

(** [FileSystemWatcher.watch]: the location and the caller's
    subscription, which the caller's [abort] disposes ([dispose_d]). *)
Definition watch_d (n : nat) (env : Env) (path : string) (u : nat) : St (nat * nat) :=
  let@ id := st_ensure env path in
  let@ sub := subscribe_d (online_d n env) id (LUser u) in
  st_ret (id, sub).

(** The location whose shared demand aggregate has the signal [a]
    attached. *)
Definition owner_of (w : FSW) (a : nat) : option nat :=
  head (map fst (List.filter
    (fun il => match l_childrenAbortController (snd il) with
               | Some ca => existsb (Nat.eqb a) (ca_signals ca)
               | None => false
               end) (map_to_list (heap w)))).

Definition all_aborted (w : FSW) (ca : ChildrenAgg) : bool :=
  forallb (fun s => existsb (Nat.eqb s) (aborted w)) (ca_signals ca).

Definition record_abort (a : nat) (w : FSW) : FSW :=
  mkFSW (locations w) (heap w) (next_id w) (aborted w ++ [a]) (opened w) (delivered w).

(** [this.locations.delete(this.path)]. *)
Definition unregister (path : string) (w : FSW) : FSW :=
  mkFSW (delete path (locations w)) (heap w) (next_id w) (aborted w) (opened w) (delivered w).

Definition close_watcher (l : Loc) : Loc :=
  set_watcher (option_map (fun h => mkHandle (h_id h) false) (l_watcher l)) l.

(** Modelled from the spec: [dispose(sub)] removes the subscription from
    the hub, and a disposal that leaves the location without demand takes
    it [offline()] (spec §3: "brought offline on demand exhaustion");
    firing an [AbortController] (at most once) runs the abort listener of
    the [SharedDemandAbortController] it is attached to once every signal
    attached to that aggregate has fired (spec §4.1).  Neither
    [Subscribable.Controller] (@xf-common/dynamic) nor
    [SharedDemandAbortController] (@xf-common/general/abort-signals) is
    under src/.  [offline_d] is [WatchedLocation.offline] and
    [childrenAggregateFired_d] the abort listener of [attachChild]
    (source lines 96-100); [n] bounds the depth of the cascade. *)
Fixpoint dispose_d (n : nat) (id sid : nat) : St unit :=
  match n with
  | O => st_ret tt
  | S n' =>
      let@ ol := st_get id in
      match ol with
      | None => st_ret tt
      | Some l =>
          let l' := set_hub (List.filter (fun e => negb (Nat.eqb (fst e) sid)) (l_hub l)) l in
          let@ _ := st_upd (upd_loc id l') in
          if has_demand l && negb (has_demand l') then offline_d n' id else st_ret tt
      end
  end
with offline_d (n : nat) (id : nat) : St unit :=
  match n with
  | O => st_ret tt
  | S n' =>
      let@ ol := st_get id in
      match ol with
      | None => st_ret tt
      | Some l =>
          let@ _ := st_modify_loc id close_watcher in                 (* #watcher?.close() *)
          let@ _ := match l_watchingParent l with                     (* #watchingParent?.abort() *)
                    | Some a => abort_d n' a
                    | None => st_ret tt
                    end in
          let@ _ := st_upd (unregister (l_path l)) in                 (* locations.delete(path) *)
          let@ _ := st_modify_loc id (fun l2 => set_listing [] [] (l_entries l2) l2) in
          let@ ol3 := st_get id in                                    (* tryDispose(#sub) *)
          match ol3 with
          | Some l3 => match l_sub l3 with
                       | Some sub => dispose_d n' id sub
                       | None => st_ret tt
                       end
          | None => st_ret tt
          end
      end
  end
with abort_d (n : nat) (a : nat) : St unit :=
  match n with
  | O => st_ret tt
  | S n' =>
      fun w =>
        if existsb (Nat.eqb a) (aborted w) then (Done tt, w)
        else
          let w1 := record_abort a w in
          match owner_of w1 a with
          | Some pid =>
              match heap w1 !! pid with
              | Some p =>
                  match l_childrenAbortController p with
                  | Some ca =>
                      if all_aborted w1 ca then childrenAggregateFired_d n' pid w1
                      else (Done tt, w1)
                  | None => (Done tt, w1)
                  end
              | None => (Done tt, w1)
              end
          | None => (Done tt, w1)
          end
  end
with childrenAggregateFired_d (n : nat) (pid : nat) : St unit :=
  match n with
  | O => st_ret tt
  | S n' =>
      let@ op := st_get pid in
      match op with
      | None => st_ret tt
      | Some p =>
          match l_childrenAbortController p with
          | None => st_ret tt
          | Some ca =>
              (* this.#childrenAbortController = undefined;
                 this.#attachedChildren = undefined; dispose(sub) *)
              let@ _ := st_upd (upd_loc pid (set_children None None p)) in
              dispose_d n' pid (ca_sub ca)
          end
      end
  end.

(** Successive [watch] calls [(path, listener)] with no cancellation;
    a call that throws leaves what it did before the [throw]. *)
Definition watch_seq (n : nat) (env : Env) (ws : list (string * nat)) (w : FSW) : FSW :=
  fold_left (fun acc q => snd (watch_d n env (fst q) (snd q) acc)) ws w.

(* ------------------------------------------------------------------ *)
(** ** Invariants, auxiliary predicates and states used by the proofs *)

(** [St_ok P R m]: run from a state satisfying [P], [m] ends (returning
    or throwing) in a state satisfying [P] and related to the start by [R]. *)
Definition St_ok {A} (P : FSW -> Prop) (R : FSW -> FSW -> Prop) (m : St A) : Prop :=
  forall w, P w -> P (snd (m w)) /\ R w (snd (m w)).

(** The registry invariant: [locations] and [heap] agree both ways,
    identities are below [next_id], no path has had [FS.watch] called on it
    twice, and the paths in [opened] are those of locations holding a
    handle. *)
Definition reg_inv (w : FSW) : Prop :=
  (forall p i, locations w !! p = Some i -> exists l, heap w !! i = Some l /\ l_path l = p) /\
  (forall i l, heap w !! i = Some l -> locations w !! l_path l = Some i) /\
  (forall i l, heap w !! i = Some l -> i < next_id w) /\
  List.NoDup (opened w) /\
  (forall q, In q (opened w) -> exists i l, heap w !! i = Some l /\ l_path l = q /\ l_watcher l <> None) /\
  (forall i l, heap w !! i = Some l -> l_watcher l <> None -> In (l_path l) (opened w)).

(** No registry entry is removed and no hub loses a subscription. *)
Definition grows_reg (w w' : FSW) : Prop :=
  (forall p i, locations w !! p = Some i -> locations w' !! p = Some i) /\
  (forall i l, heap w !! i = Some l -> exists l', heap w' !! i = Some l' /\ incl (l_hub l) (l_hub l')).

(** Every allocated identity is below [next_id]. *)
Definition ids_below (w : FSW) : Prop := forall i l, heap w !! i = Some l -> i < next_id w.

(** The stat of [p] reports ENOENT or a directory. *)
Definition may_watch (env : Env) (p : string) : Prop :=
  getStats env p = Ok None \/ exists s, getStats env p = Ok (Some s) /\ st_kind s = KDir.

(** [FS.watch] is called only on [may_watch] paths, and the handle of
    [id0] keeps its path and changes only from none, on a [may_watch]
    path. *)
Definition handle_step (env : Env) (id0 : nat) (w w' : FSW) : Prop :=
  (exists sfx, opened w' = app (opened w) sfx /\ Forall (may_watch env) sfx) /\
  (forall l, heap w !! id0 = Some l -> exists l', heap w' !! id0 = Some l' /\ l_path l' = l_path l /\
     (l_watcher l' = l_watcher l \/ (l_watcher l = None /\ may_watch env (l_path l)))).

(** The path starts with a slash. *)
Definition is_abs (p : string) : bool :=
  match p with String c _ => Ascii.eqb c Path.slash | EmptyString => false end.

(** Path, parent path and [shouldWatchParent] are unchanged. *)
Definition same_frame (l l' : Loc) : Prop :=
  l_path l' = l_path l /\ l_parentPath l' = l_parentPath l /\
  l_shouldWatchParent l' = l_shouldWatchParent l.

(** What the dispose / offline cascade may do: nothing is allocated, no
    registry entry or location is created, every location keeps its frame,
    its hub only loses subscriptions, and no aggregate or child map is
    created. *)
Definition shrinks (w w' : FSW) : Prop :=
  next_id w' = next_id w /\
  (forall q i, locations w' !! q = Some i -> locations w !! q = Some i) /\
  (forall i l', heap w' !! i = Some l' -> is_Some (heap w !! i)) /\
  (forall i l, heap w !! i = Some l -> exists l', heap w' !! i = Some l' /\ same_frame l l' /\
     incl (l_hub l') (l_hub l) /\
     (l_childrenAbortController l = None -> l_childrenAbortController l' = None) /\
     (l_attachedChildren l = None -> l_attachedChildren l' = None)).

(** The registry maps each path to a location at that path, identities
    are below [next_id], every location's path is absolute with its
    parent path its [Path.dirname], and a location that watches its parent
    is not a child of the root. *)
Definition loc_inv (w : FSW) : Prop :=
  (forall q i, locations w !! q = Some i -> exists l, heap w !! i = Some l /\ l_path l = q) /\
  (forall i l, heap w !! i = Some l -> i < next_id w) /\
  (forall i l, heap w !! i = Some l -> is_abs (l_path l) = true /\
     l_parentPath l = Path.dirname (l_path l) /\
     (l_shouldWatchParent l = true -> l_parentPath l <> "/"%string)).

(** A forwarding subscription of [attachChild]. *)
Definition is_fwd (e : nat * Listener) : bool := match snd e with LForward => true | _ => false end.

(** The aggregate, the children and the forwarding subscriptions of a
    location are unchanged, and its hub gains only subscriptions with
    identities from [n0] on. *)
Definition fwd_kept (n0 : nat) (l l' : Loc) : Prop :=
  l_childrenAbortController l' = l_childrenAbortController l /\
  l_attachedChildren l' = l_attachedChildren l /\
  List.filter is_fwd (l_hub l') = List.filter is_fwd (l_hub l) /\
  (forall e, In e (l_hub l') -> In e (l_hub l) \/ n0 <= fst e).

(** Identities only grow, every location keeps its frame, and [pid]
    keeps its aggregate, children and forwarding subscriptions. *)
Definition keeps_fwd (pid : nat) (w w' : FSW) : Prop :=
  next_id w <= next_id w' /\
  (forall i l, heap w !! i = Some l -> exists l', heap w' !! i = Some l' /\ same_frame l l') /\
  (forall l, heap w !! pid = Some l -> exists l', heap w' !! pid = Some l' /\ fwd_kept (next_id w) l l').

(** The invariant kept while bringing locations online, for the location
    [pid] at path [pp]: [loc_inv] and [pid] allocated at [pp]. *)
Definition fwd_inv (pid : nat) (pp : string) (w : FSW) : Prop :=
  loc_inv w /\ exists l, heap w !! pid = Some l /\ l_path l = pp.

(** [j] is allocated at a path no longer (strictly shorter) than [pp]. *)
Definition fwd_within (pp : string) (j : nat) (w : FSW) : Prop :=
  exists l, heap w !! j = Some l /\ String.length (l_path l) <= String.length pp.
Definition fwd_below (pp : string) (j : nat) (w : FSW) : Prop :=
  exists l, heap w !! j = Some l /\ String.length (l_path l) < String.length pp.

(** A file system seen from a relative working directory: [.] is a
    directory and [a] a file in it. *)
Definition rel_stat (p : string) : StatOutcome :=
  if String.eqb p "." then StatOk ex_dir else if String.eqb p "a" then StatOk ex_file else StatErr "ENOENT".
Definition rel_env : Env := mkEnv rel_stat
  (fun p => match rel_stat p with
            | StatOk s => if isDirectoryStats s then ReaddirOk [] else ReaddirErr "ENOTDIR"
            | StatErr c => ReaddirErr c end)
  "/home/u"
  (fun p => match rel_stat p with StatOk _ => None | StatErr c => Some c end).

(** A decision procedure for [loc_inv]. *)
Definition loc_inv_b (w : FSW) : bool :=
  forallb (fun qi => match heap w !! snd qi with
                     | Some l => String.eqb (l_path l) (fst qi) | None => false end)
    (map_to_list (locations w)) &&
  forallb (fun il => Nat.ltb (fst il) (next_id w) && is_abs (l_path (snd il)) &&
                     String.eqb (l_parentPath (snd il)) (Path.dirname (l_path (snd il))) &&
                     (negb (l_shouldWatchParent (snd il)) || negb (String.eqb (l_parentPath (snd il)) "/")))
    (map_to_list (heap w)).

(** [watch('/tmp/d/a.txt')] from the empty watcher: [/tmp/d] (identity 3)
    forwards to its child [a.txt]. *)
Definition w8 : FSW := snd (watch_d 4 ex_env "/tmp/d/a.txt" 1 w0).

(* ------------------------------------------------------------------ *)
(** ** Path examples *)

Example join_abs : Path.join "/tmp/d" "a.txt" = "/tmp/d/a.txt".
Proof. reflexivity. Qed.
Example join_dotdot : Path.join "/tmp/d/" "../e/./f/" = "/tmp/e/f/".
Proof. reflexivity. Qed.
Example dirname_ex : Path.dirname "/tmp/d" = "/tmp" /\ Path.dirname "/tmp" = "/"
  /\ Path.dirname "a/b//" = "a".
Proof. repeat split; reflexivity. Qed.

Example join_abs_twice : Path.join "/tmp/d" "/tmp/d/a.txt" = "/tmp/d/tmp/d/a.txt".
Proof. reflexivity. Qed.

(* ------------------------------------------------------------------ *)
(** ** Stat lookup and the location view *)

(** C5: [getStats] returns "no snapshot" ([undefined]) when the stat fails
    with [ENOENT], propagates every other error unchanged, and returns the
    stats when the stat succeeds; the OS is asked once. *)
Theorem getStats_enoent_or_rethrow (env : Env) (path : string) :
  (env_stat env path = StatErr "ENOENT" -> getStats env path = Ok None) /\
  (forall code, env_stat env path = StatErr code -> code <> "ENOENT" ->
     getStats env path = Throw (OSError code)) /\
  (forall s, env_stat env path = StatOk s -> getStats env path = Ok (Some s)).
Proof.
  unfold getStats. repeat split.
  - intros ->. reflexivity.
  - intros code -> Hne. destruct (String.eqb_spec code "ENOENT"); [contradiction | reflexivity].
  - intros s ->. reflexivity.
Qed.

Lemma getStats_enoent_or_rethrow_witness :
  getStats ex_env "/tmp/d/nope" = Ok None /\
  getStats ex_env "/tmp/d/loop" = Throw (OSError "ELOOP") /\
  getStats ex_env "/tmp/d" = Ok (Some ex_dir).
Proof.
  destruct (getStats_enoent_or_rethrow ex_env "/tmp/d/nope") as [H1 _].
  destruct (getStats_enoent_or_rethrow ex_env "/tmp/d/loop") as [_ [H2 _]].
  destruct (getStats_enoent_or_rethrow ex_env "/tmp/d") as [_ [_ H3]].
  split; [apply H1; reflexivity |]. split; [apply H2; [reflexivity | discriminate] |].
  apply H3; reflexivity.
Defined.

(** C9: a location without a stat snapshot reports [exists = false],
    [isFile = false], [isDirectory = false] and zero for [dateCreated],
    [dateModified] and [fileSize]. *)
Theorem view_of_absent_location (l : Loc) (Habsent : l_stats l = None) :
  exists_ l = false /\ isFile l = false /\ isDirectory l = false /\
  dateCreated l = 0%Z /\ dateModified l = 0%Z /\ fileSize l = 0%Z.
Proof.
  unfold exists_, isFile, isDirectory, dateCreated, dateModified, fileSize.
  rewrite Habsent. repeat split.
Qed.

Lemma view_of_absent_location_witness :
  let l := newLocation ex_env "/tmp/nope" in
  l_stats l = None /\
  exists_ l = false /\ isFile l = false /\ isDirectory l = false /\
  dateCreated l = 0%Z /\ dateModified l = 0%Z /\ fileSize l = 0%Z.
Proof.
  simpl. split; [reflexivity |].
  apply (view_of_absent_location (newLocation ex_env "/tmp/nope")). reflexivity.
Defined.

(* ------------------------------------------------------------------ *)
(** ** Teardown *)

Lemma offline_at (w : FSW) (id : nat) (l : Loc) :
  heap w !! id = Some l ->
  heap (offline w id) !! id = Some (offline_loc l) /\
  locations (offline w id) = delete (l_path l) (locations w) /\
  aborted (offline w id) =
    match l_watchingParent l with Some a => app (aborted w) [a] | None => aborted w end.
Proof.
  intros Hl. unfold offline, offline_loc. rewrite Hl.
  destruct (l_sub l) as [sub |]; simpl.
  - unfold dispose. simpl. rewrite lookup_insert_eq. simpl.
    rewrite insert_insert_eq, lookup_insert_eq. auto.
  - rewrite lookup_insert_eq. auto.
Qed.

(** C4: [offline()] closes the native watch handle if one is held, aborts
    the parent attachment's signal if there is one, removes the location's
    path from the registry, clears [filePaths] and [subdirPaths] and
    disposes the self-subscription [#sub]. *)
Theorem offline_releases (w : FSW) (id : nat) (l : Loc) (Hl : heap w !! id = Some l) :
  let w' := offline w id in
  locations w' !! l_path l = None /\
  (forall a, l_watchingParent l = Some a -> In a (aborted w')) /\
  exists l', heap w' !! id = Some l' /\
    (forall h, l_watcher l = Some h -> l_watcher l' = Some (mkHandle (h_id h) false)) /\
    (l_watcher l = None -> l_watcher l' = None) /\
    l_filePaths l' = [] /\ l_subdirPaths l' = [] /\
    (forall sub, l_sub l = Some sub -> ~ In sub (map fst (l_hub l'))).
Proof.
  destruct (offline_at w id l Hl) as (Hh & Hloc & Hab). simpl.
  split; [rewrite Hloc; apply lookup_delete_eq |].
  split.
  { intros a Ha. rewrite Hab, Ha. apply in_or_app. right. left. reflexivity. }
  exists (offline_loc l). split; [exact Hh |].
  unfold offline_loc.
  destruct (l_sub l) as [sub |]; simpl.
  - split; [intros h ->; reflexivity |]. split; [intros ->; reflexivity |].
    split; [reflexivity |]. split; [reflexivity |].
    intros s [= <-] Hin. apply in_map_iff in Hin as ([x ls] & Hx & Hin). simpl in Hx. subst x.
    apply filter_In in Hin as [_ Hf]. simpl in Hf. rewrite Nat.eqb_refl in Hf. discriminate.
  - split; [intros h ->; reflexivity |]. split; [intros ->; reflexivity |].
    split; [reflexivity |]. split; [reflexivity |]. discriminate.
Qed.

Lemma offline_releases_witness :
  heap ex_online !! 0 = Some (loc_at ex_online 0) /\
  let w' := offline ex_online 0 in
  locations w' !! "/tmp/d" = None /\
  (forall a, l_watchingParent (loc_at ex_online 0) = Some a -> In a (aborted w')) /\
  exists l', heap w' !! 0 = Some l' /\
    (forall h, l_watcher (loc_at ex_online 0) = Some h -> l_watcher l' = Some (mkHandle (h_id h) false)) /\
    (l_watcher (loc_at ex_online 0) = None -> l_watcher l' = None) /\
    l_filePaths l' = [] /\ l_subdirPaths l' = [] /\
    (forall sub, l_sub (loc_at ex_online 0) = Some sub -> ~ In sub (map fst (l_hub l'))).
Proof.
  assert (H : heap ex_online !! 0 = Some (loc_at ex_online 0)) by (vm_compute; reflexivity).
  split; [exact H |].
  exact (offline_releases ex_online 0 (loc_at ex_online 0) H).
Defined.

(** C10: [offline()] leaves the [entries] map and the cached stat snapshot
    as they were; only [filePaths] and [subdirPaths] are cleared, so the
    view still reports the entries and every stat-derived value it
    reported before teardown. *)
Theorem offline_keeps_entries_and_stats (w : FSW) (id : nat) (l : Loc)
    (Hl : heap w !! id = Some l) :
  exists l', heap (offline w id) !! id = Some l' /\
    l_entries l' = l_entries l /\ l_stats l' = l_stats l /\
    exists_ l' = exists_ l /\ isFile l' = isFile l /\ isDirectory l' = isDirectory l /\
    dateCreated l' = dateCreated l /\ dateModified l' = dateModified l /\
    fileSize l' = fileSize l.
Proof.
  destruct (offline_at w id l Hl) as (Hh & _ & _).
  exists (offline_loc l). split; [exact Hh |].
  assert (E : l_entries (offline_loc l) = l_entries l /\ l_stats (offline_loc l) = l_stats l)
    by (unfold offline_loc; destruct (l_sub l); split; reflexivity).
  destruct E as [E1 E2].
  unfold exists_, isFile, isDirectory, dateCreated, dateModified, fileSize.
  rewrite E1, E2. repeat split.
Qed.

Lemma offline_keeps_entries_and_stats_witness :
  heap ex_added_state !! 0 = Some (loc_at ex_added_state 0) /\
  l_entries (loc_at ex_added_state 0) = [("a.txt", ex_file)] /\
  exists l', heap (offline ex_added_state 0) !! 0 = Some l' /\
    l_entries l' = l_entries (loc_at ex_added_state 0) /\
    l_stats l' = l_stats (loc_at ex_added_state 0) /\
    exists_ l' = exists_ (loc_at ex_added_state 0) /\
    isFile l' = isFile (loc_at ex_added_state 0) /\
    isDirectory l' = isDirectory (loc_at ex_added_state 0) /\
    dateCreated l' = dateCreated (loc_at ex_added_state 0) /\
    dateModified l' = dateModified (loc_at ex_added_state 0) /\
    fileSize l' = fileSize (loc_at ex_added_state 0).
Proof.
  assert (H : heap ex_added_state !! 0 = Some (loc_at ex_added_state 0)) by (vm_compute; reflexivity).
  split; [exact H |]. split; [vm_compute; reflexivity |].
  exact (offline_keeps_entries_and_stats ex_added_state 0 (loc_at ex_added_state 0) H).
Defined.

(* ------------------------------------------------------------------ *)
(** ** The native watch callback *)

Lemma upd_loc_same (w : FSW) (id : nat) (l : Loc) :
  heap w !! id = Some l -> upd_loc id l w = w.
Proof.
  intros Hl. destruct w as [lo h n a o d]. unfold upd_loc. simpl in *.
  rewrite insert_id by exact Hl. reflexivity.
Qed.

(** C2 (as the code has it): a missing or empty file name changes nothing
    and signals nothing.  Otherwise, with [p] the joined child path:
    [rename] with [p] present records its stats in [entries], adds [p] to
    [subdirPaths] (directory) or [filePaths] (anything else) and signals
    [("add", p, stats)]; [rename] with [p] absent ([ENOENT]) removes the
    name from [entries] and [p] from both sets and signals
    [("delete", p, undefined)]; [change] signals [("change", p, stats)]
    without touching the listing.  Each signal goes to the location's own
    hub.  When the stat of [p] fails with any other error, that error
    propagates out of the callback: nothing is changed or signalled. *)
Theorem onNativeWatcherEvent_spec (fuel : nat) (env : Env) (w : FSW) (id : nat) (l : Loc)
    (Hl : heap w !! id = Some l) (ne : NativeEvent) :
  onNativeWatcherEvent fuel env w id ne None = Ok w /\
  onNativeWatcherEvent fuel env w id ne (Some "") = Ok w /\
  forall fn, fn <> "" ->
    let p := Path.join (l_path l) fn in
    (forall s, env_stat env p = StatOk s -> ne = NRename ->
       onNativeWatcherEvent fuel env w id ne (Some fn) =
       signal fuel env
         (upd_loc id (set_listing
            (if isDirectoryStats s then l_filePaths l else set_add p (l_filePaths l))
            (if isDirectoryStats s then set_add p (l_subdirPaths l) else l_subdirPaths l)
            (map_set fn s (l_entries l)) l) w)
         id EvAdd p (Some s)) /\
    (env_stat env p = StatErr "ENOENT" -> ne = NRename ->
       onNativeWatcherEvent fuel env w id ne (Some fn) =
       signal fuel env
         (upd_loc id (set_listing (set_delete p (l_filePaths l)) (set_delete p (l_subdirPaths l))
            (map_delete fn (l_entries l)) l) w)
         id EvDelete p None) /\
    (forall st, getStats env p = Ok st -> ne = NChange ->
       onNativeWatcherEvent fuel env w id ne (Some fn) = signal fuel env w id EvChange p st) /\
    (forall code, env_stat env p = StatErr code -> code <> "ENOENT" ->
       onNativeWatcherEvent fuel env w id ne (Some fn) = Throw (OSError code)).
Proof.
  unfold onNativeWatcherEvent. rewrite Hl.
  split; [simpl; rewrite upd_loc_same by exact Hl; reflexivity |].
  split; [simpl; rewrite upd_loc_same by exact Hl; reflexivity |].
  intros fn Hfn. destruct fn as [| c fn']; [contradiction |].
  cbv zeta. unfold nativeEventStep.
  set (p := Path.join (l_path l) (String c fn')).
  split; [| split; [| split]].
  - intros s Hs ->. unfold getStats. rewrite Hs. simpl.
    destruct (isDirectoryStats s); reflexivity.
  - intros Hs ->. unfold getStats. rewrite Hs. reflexivity.
  - intros st Hst ->. rewrite Hst. simpl. rewrite upd_loc_same by exact Hl. reflexivity.
  - intros code Hs Hne. unfold getStats. rewrite Hs.
    destruct (String.eqb_spec code "ENOENT"); [contradiction | reflexivity].
Qed.

Lemma onNativeWatcherEvent_spec_witness :
  heap ex_online !! 0 = Some (loc_at ex_online 0) /\
  onNativeWatcherEvent 8 ex_env ex_online 0 NRename (Some "a.txt") =
  signal 8 ex_env
    (upd_loc 0 (set_listing ["/tmp/d/a.txt"] [] [("a.txt", ex_file)] (loc_at ex_online 0)) ex_online)
    0 EvAdd "/tmp/d/a.txt" (Some ex_file).
Proof.
  assert (H : heap ex_online !! 0 = Some (loc_at ex_online 0)) by (vm_compute; reflexivity).
  split; [exact H |].
  destruct (onNativeWatcherEvent_spec 8 ex_env ex_online 0 (loc_at ex_online 0) H NRename)
    as (_ & _ & Hfn).
  destruct (Hfn "a.txt" ltac:(discriminate)) as (Hadd & _).
  apply (Hadd ex_file); reflexivity.
Defined.

(** C2 fails as stated: a [change] callback for a name whose stat fails
    with an error other than [ENOENT] (here a symbolic-link loop,
    [ELOOP]) publishes nothing — the error propagates out of the callback. *)
Lemma onNativeWatcherEvent_change_stat_error :
  onNativeWatcherEvent 8 ex_env ex_online 0 NChange (Some "loop") = Throw (OSError "ELOOP") /\
  forall w', onNativeWatcherEvent 8 ex_env ex_online 0 NChange (Some "loop") <> Ok w'.
Proof.
  assert (E : onNativeWatcherEvent 8 ex_env ex_online 0 NChange (Some "loop") = Throw (OSError "ELOOP"))
    by (vm_compute; reflexivity).
  split; [exact E |]. intros w'. rewrite E. discriminate.
Qed.

(* ------------------------------------------------------------------ *)
(** ** Forwarding to attached children *)

(** The forwarding subscription looks the event's path up in the registry
    as it is, re-fetches that path's stats, and signals the location found
    with [Path.join(parent.path, path)] in place of [path]. *)
Lemma forward_step (sig : FSW -> nat -> Event -> string -> option Stats -> Res FSW)
    (w : FSW) (self : Loc) (ev : Event) (path : string) (st : option Stats) (cid : nat) :
  locations w !! path = Some cid ->
  forwardEventToChildLocation sig w self ev path st = sig w cid ev (Path.join (l_path self) path) st.
Proof. intros H. unfold forwardEventToChildLocation. rewrite H. reflexivity. Qed.

(** C1, evaluated: [/tmp/d] is watched (listener 1) and online, and so is
    its child [/tmp/d/a.txt] (listener 2), attached to it.  On the native
    [rename] of [a.txt] the parent's listener receives the absolute path
    ["/tmp/d/a.txt"], the child's hub is signalled with freshly fetched
    stats (the child's snapshot becomes the file's stats) but with the path
    ["/tmp/d/tmp/d/a.txt"] — the parent directory joined a second time —
    so the child's listener never receives ["/tmp/d/a.txt"]. *)
Theorem forward_signals_doubled_path :
  match ex_added with
  | Ok w =>
      locations w !! "/tmp/d/a.txt" = Some 8 /\
      delivered w = [(1, EvAdd, "/tmp/d/a.txt"); (2, EvAdd, "/tmp/d/tmp/d/a.txt")] /\
      ~ In (2, EvAdd, "/tmp/d/a.txt") (delivered w) /\
      l_stats (loc_at w 8) = Some ex_file
  | Throw _ => False
  end.
Proof.
  vm_compute. split; [reflexivity |]. split; [reflexivity |]. split; [| reflexivity].
  intros [H | [H | []]]; discriminate.
Qed.

(* ------------------------------------------------------------------ *)
(** ** Invariant violations of the listing snapshot and the watch handle *)

(** C6 (as the code has it): on an existing directory location whose
    [filePaths] or [subdirPaths] is non-empty, [initializeEntries] throws
    and classifies nothing: when [readdirSync] fails its error propagates
    unchanged, when it succeeds the "This is a bug." error for the
    location's path is thrown; [initializeWatcher] on a location that holds
    a watch handle throws "Watcher already initialized" unless the
    location's stat snapshot says regular file, in which case it returns
    without doing anything.  No error is caught on the way. *)
Theorem initialize_invariant_violations (env : Env) (w : FSW) (id : nat) (l : Loc)
    (Hl : heap w !! id = Some l) :
  ((exists s, l_stats l = Some s /\ st_kind s = KDir) ->
   (l_filePaths l <> [] \/ l_subdirPaths l <> []) ->
   (forall code, env_readdir env (l_path l) = ReaddirErr code ->
      initializeEntries env l = Throw (OSError code)) /\
   (forall es, env_readdir env (l_path l) = ReaddirOk es ->
      initializeEntries env l = Throw (BugError (initializeEntries_bug (l_path l))))) /\
  ((exists h, l_watcher l = Some h) -> isFile l = false ->
     initializeWatcher env w id = Throw (BugError initializeWatcher_bug)) /\
  (isFile l = true -> initializeWatcher env w id = Ok w).
Proof.
  split; [| split].
  - intros (s & Hs & Hk) Hne.
    assert (Hguard : isFile l || negb (exists_ l) = false)
      by (unfold isFile, exists_; rewrite Hs; unfold isFileStats; rewrite Hk; reflexivity).
    assert (Hsz : Nat.ltb 0 (length (l_filePaths l)) || Nat.ltb 0 (length (l_subdirPaths l)) = true).
    { destruct Hne as [Hne | Hne].
      - destruct (l_filePaths l); [contradiction | reflexivity].
      - destruct (l_subdirPaths l); [contradiction |]. apply orb_true_r. }
    unfold initializeEntries. rewrite Hguard.
    split.
    + intros code Hc. rewrite Hc. reflexivity.
    + intros es Hes. rewrite Hes, Hsz. reflexivity.
  - intros (h & Hh) Hf. unfold initializeWatcher. rewrite Hl, Hf, Hh. reflexivity.
  - intros Hf. unfold initializeWatcher. rewrite Hl, Hf. reflexivity.
Qed.

(** [/tmp/d] online: a directory with an open watch handle; with a listed
    file its listing snapshot throws, with the error of [readdirSync] when
    that fails. *)
Lemma initialize_invariant_violations_witness :
  heap ex_online !! 0 = Some (loc_at ex_online 0) /\
  l_stats (loc_at ex_online 0) = Some ex_dir /\
  initializeEntries ex_env (set_listing ["/tmp/d/x"] [] [] (loc_at ex_online 0)) =
    Throw (BugError (initializeEntries_bug "/tmp/d")) /\
  initializeEntries (mkEnv ex_stat (fun _ => ReaddirErr "EACCES") "/home/u" (fun _ => None))
    (set_listing ["/tmp/d/x"] [] [] (loc_at ex_online 0)) = Throw (OSError "EACCES") /\
  initializeWatcher ex_env ex_online 0 = Throw (BugError initializeWatcher_bug).
Proof.
  assert (H : heap ex_online !! 0 = Some (loc_at ex_online 0)) by (vm_compute; reflexivity).
  split; [exact H |]. split; [vm_compute; reflexivity |].
  assert (H' : heap (upd_loc 0 (set_listing ["/tmp/d/x"] [] [] (loc_at ex_online 0)) ex_online) !! 0
               = Some (set_listing ["/tmp/d/x"] [] [] (loc_at ex_online 0)))
    by (unfold upd_loc; simpl; apply lookup_insert_eq).
  assert (Hd : exists s, l_stats (set_listing ["/tmp/d/x"] [] [] (loc_at ex_online 0)) = Some s /\
                         st_kind s = KDir)
    by (exists ex_dir; split; [vm_compute; reflexivity | reflexivity]).
  assert (Hne : l_filePaths (set_listing ["/tmp/d/x"] [] [] (loc_at ex_online 0)) <> [] \/
                l_subdirPaths (set_listing ["/tmp/d/x"] [] [] (loc_at ex_online 0)) <> [])
    by (left; discriminate).
  split; [| split].
  - destruct (initialize_invariant_violations ex_env _ 0 _ H') as ((_ & Hb) & _); [exact Hd | exact Hne |].
    exact (Hb [] (eq_refl : env_readdir ex_env (l_path (set_listing ["/tmp/d/x"] [] [] (loc_at ex_online 0))) = ReaddirOk [])).
  - destruct (initialize_invariant_violations
                (mkEnv ex_stat (fun _ => ReaddirErr "EACCES") "/home/u" (fun _ => None)) _ 0 _ H')
      as ((Hr & _) & _); [exact Hd | exact Hne |].
    exact (Hr "EACCES" eq_refl).
  - destruct (initialize_invariant_violations ex_env ex_online 0 _ H) as (_ & Hw & _).
    apply Hw; vm_compute; [eexists; reflexivity | reflexivity].
Defined.

(** C6 fails as stated: once [a.txt] is added, [/tmp/d] holds an open
    watch handle but its snapshot says regular file (the self-subscription
    stored the child's stats), and [initializeWatcher] returns without
    raising. *)
Lemma initializeWatcher_file_with_handle :
  (exists h, l_watcher (loc_at ex_added_state 0) = Some h /\ h_open h = true) /\
  initializeWatcher ex_env ex_added_state 0 = Ok ex_added_state.
Proof.
  split.
  - eexists. split; vm_compute; reflexivity.
  - vm_compute. reflexivity.
Qed.

(* ------------------------------------------------------------------ *)
(** ** Which locations open a native watch handle *)

Lemma opened_subscribe (w : FSW) (id : nat) (ls : Listener) :
  opened (fst (subscribe w id ls)) = opened w.
Proof. unfold subscribe, fresh. simpl. repeat case_match; reflexivity. Qed.

Lemma opened_ensureLocation (env : Env) (w : FSW) (p : string) :
  opened (fst (ensureLocation env w p)) = opened w.
Proof. unfold ensureLocation. repeat case_match; reflexivity. Qed.

Lemma opened_attachChild (w : FSW) (pid cid : nat) (cpath : string) (sig : nat) :
  opened (attachChild w pid cid cpath sig) = opened w.
Proof.
  unfold attachChild. destruct (heap w !! pid) as [p |]; [| reflexivity].
  destruct (l_childrenAbortController p); [reflexivity |].
  destruct (subscribe w pid LForward) as [w1 sub] eqn:Hs.
  assert (H1 : opened w1 = opened w) by (rewrite <- (opened_subscribe w pid LForward), Hs; reflexivity).
  simpl. destruct (heap w1 !! pid); simpl; exact H1.
Qed.

Lemma opened_attachToParentLocation (env : Env) (w : FSW) (id : nat) :
  opened (attachToParentLocation env w id) = opened w.
Proof.
  unfold attachToParentLocation. destruct (heap w !! id) as [l |]; [| reflexivity].
  destruct (negb (l_shouldWatchParent l)); [reflexivity |]. simpl.
  destruct (ensureLocation env _ (l_parentPath l)) as [w3 pid] eqn:He.
  rewrite opened_attachChild.
  change w3 with (fst (w3, pid)). rewrite <- He, opened_ensureLocation. reflexivity.
Qed.

Lemma opened_modify_loc (w w' : FSW) (id : nat) (f : Loc -> Res Loc) :
  modify_loc w id f = Ok w' -> opened w' = opened w.
Proof.
  unfold modify_loc. destruct (heap w !! id); [| intros [= <-]; reflexivity].
  destruct (f l); simpl; [intros [= <-]; reflexivity | discriminate].
Qed.

Lemma opened_initializeWatcher (env : Env) (w w' : FSW) (id : nat) (l : Loc) :
  heap w !! id = Some l -> initializeWatcher env w id = Ok w' ->
  opened w' = opened w \/ (isFile l = false /\ opened w' = app (opened w) [l_path l]).
Proof.
  intros Hl. unfold initializeWatcher. rewrite Hl.
  destruct (isFile l) eqn:Hf; [intros [= <-]; left; reflexivity |].
  destruct (l_watcher l); [discriminate |].
  destruct (env_watch env (l_path l)); [discriminate |]. simpl. intros [= <-]. right. auto.
Qed.

Lemma initializeEntries_stats_path (env : Env) (l l' : Loc) :
  initializeEntries env l = Ok l' -> l_stats l' = l_stats l /\ l_path l' = l_path l.
Proof.
  unfold initializeEntries.
  destruct (isFile l || negb (exists_ l)); [intros [= <-]; auto |].
  destruct (env_readdir env (l_path l)); [| discriminate].
  case_match; [discriminate |].
  destruct (classifyEntries _ _ _ _). intros [= <-]. auto.
Qed.

Lemma initializeEntries_readdir (env : Env) (l l' : Loc) :
  initializeEntries env l = Ok l' -> exists_ l = true -> isFile l = false ->
  exists es, env_readdir env (l_path l) = ReaddirOk es.
Proof.
  unfold initializeEntries. intros H He Hf. rewrite He, Hf in H. simpl in H.
  destruct (env_readdir env (l_path l)); [eauto | discriminate].
Qed.

Lemma getStats_ok (env : Env) (p : string) (st : option Stats) :
  getStats env p = Ok st ->
  match st with
  | None => env_stat env p = StatErr "ENOENT"
  | Some s => env_stat env p = StatOk s
  end.
Proof.
  unfold getStats. destruct (env_stat env p) as [s | code]; [intros [= <-]; reflexivity |].
  destruct (String.eqb_spec code "ENOENT"); [intros [= <-]; subst; reflexivity | discriminate].
Qed.

Lemma ex_env_readdir_dirs_only : readdir_dirs_only ex_env.
Proof.
  intros p es. simpl. destruct (ex_stat p) as [s | code]; [| discriminate].
  destruct (isDirectoryStats s) eqn:Hd; [| discriminate]. intros _.
  exists s. split; [reflexivity |]. unfold isDirectoryStats in Hd.
  destruct (st_kind s); [discriminate | reflexivity | discriminate].
Qed.


(* ------------------------------------------------------------------ *)
(** ** The forwarding subscription of [attachChild] *)

Lemma attachChild_first (w : FSW) (pid cid : nat) (cpath : string) (sig : nat) (p : Loc) :
  heap w !! pid = Some p -> l_childrenAbortController p = None ->
  next_id (attachChild w pid cid cpath sig) = S (S (next_id w)) /\
  exists p', heap (attachChild w pid cid cpath sig) !! pid = Some p' /\
    l_hub p' = app (l_hub p) [(next_id w, LForward)] /\
    l_childrenAbortController p' = Some (mkChildrenAgg (S (next_id w)) [sig] (next_id w)) /\
    l_attachedChildren p' = Some (map_set cpath cid (default [] (l_attachedChildren p))).
Proof.
  intros Hp Hca. unfold attachChild. rewrite Hp, Hca.
  unfold subscribe, fresh. simpl. rewrite Hp. simpl. rewrite lookup_insert_eq. simpl.
  split; [reflexivity |].
  eexists. split; [apply lookup_insert_eq |]. simpl. auto.
Qed.

Lemma attachChild_again (w : FSW) (pid cid : nat) (cpath : string) (sig : nat) (p : Loc)
    (ca : ChildrenAgg) :
  heap w !! pid = Some p -> l_childrenAbortController p = Some ca ->
  exists p', heap (attachChild w pid cid cpath sig) !! pid = Some p' /\
    l_hub p' = l_hub p /\
    l_childrenAbortController p' =
      Some (mkChildrenAgg (ca_id ca) (app (ca_signals ca) [sig]) (ca_sub ca)) /\
    l_attachedChildren p' = Some (map_set cpath cid (default [] (l_attachedChildren p))).
Proof.
  intros Hp Hca. unfold attachChild. rewrite Hp, Hca.
  eexists. split; [apply lookup_insert_eq |]. simpl. auto.
Qed.

(* ------------------------------------------------------------------ *)
(** ** Delivery to callers' listeners *)

Lemma grows_refl (w : FSW) : grows w w.
Proof. exists []. symmetry. apply app_nil_r. Qed.

Lemma grows_trans (w1 w2 w3 : FSW) : grows w1 w2 -> grows w2 w3 -> grows w1 w3.
Proof. intros [s1 H1] [s2 H2]. exists (app s1 s2). rewrite H2, H1. symmetry. apply app_assoc. Qed.

Section Deliver.
Variable sig : FSW -> nat -> Event -> string -> option Stats -> Res FSW.
Hypothesis sig_grows : forall w i e p s w', sig w i e p s = Ok w' -> grows w w'.
Variables (env : Env) (id : nat) (self : Loc) (event : Event) (path : string) (stats : option Stats).

Lemma forward_grows (w w' : FSW) (st : option Stats) :
  forwardEventToChildLocation sig w self event path st = Ok w' -> grows w w'.
Proof.
  unfold forwardEventToChildLocation. destruct (locations w !! path).
  - apply sig_grows.
  - intros [= <-]. apply grows_refl.
Qed.

Lemma deliver_grows (subs : list (nat * Listener)) :
  forall w w', deliver sig env id self event path stats w subs = Ok w' -> grows w w'.
Proof.
  induction subs as [| [sid ls] r IH]; intros w w' H; simpl in H.
  - injection H as <-. apply grows_refl.
  - destruct ls as [u | |].
    + apply IH in H. eapply grows_trans; [| exact H]. exists [(u, event, path)]. reflexivity.
    + apply IH in H. eapply grows_trans; [| exact H].
      unfold onSubscriptionEvent. destruct (heap w !! id); [| apply grows_refl].
      exists []. symmetry. apply app_nil_r.
    + destruct (getStats env path) as [st |]; [| discriminate]. simpl in H.
      destruct (forwardEventToChildLocation sig w self event path st) as [w1 |] eqn:Hf;
        [| discriminate]. simpl in H.
      eapply grows_trans; [exact (forward_grows w w1 st Hf) | exact (IH _ _ H)].
Qed.

Lemma deliver_reaches (u : nat) (subs : list (nat * Listener)) :
  In (LUser u) (map snd subs) ->
  forall w w', deliver sig env id self event path stats w subs = Ok w' ->
  In (u, event, path) (delivered w').
Proof.
  induction subs as [| [sid ls] r IH]; intros Hin w w' H; [destruct Hin |].
  simpl in Hin, H. destruct Hin as [Heq | Hin].
  - subst ls. apply deliver_grows in H as [sfx Hs]. rewrite Hs.
    apply in_or_app. left. simpl. apply in_or_app. right. left. reflexivity.
  - destruct ls as [u' | |].
    + exact (IH Hin _ _ H).
    + exact (IH Hin _ _ H).
    + destruct (getStats env path) as [st |]; [| discriminate]. simpl in H.
      destruct (forwardEventToChildLocation sig w self event path st) as [w1 |]; [| discriminate].
      exact (IH Hin _ _ H).
Qed.

End Deliver.

Lemma signal_grows (fuel : nat) :
  forall env w i e p s w', signal fuel env w i e p s = Ok w' -> grows w w'.
Proof.
  induction fuel as [| f IH]; intros env w i e p s w' H; simpl in H.
  - injection H as <-. apply grows_refl.
  - destruct (heap w !! i) as [self |]; [| injection H as <-; apply grows_refl].
    eapply deliver_grows; [| exact H]. apply IH.
Qed.

Lemma signal_reaches (fuel : nat) (env : Env) (w w' : FSW) (i u : nat) (l : Loc)
    (e : Event) (p : string) (s : option Stats) :
  heap w !! i = Some l -> In (LUser u) (map snd (l_hub l)) ->
  signal (S fuel) env w i e p s = Ok w' -> In (u, e, p) (delivered w').
Proof.
  intros Hl Hin H. simpl in H. rewrite Hl in H.
  eapply deliver_reaches; [| exact Hin | exact H]. apply signal_grows.
Qed.

(* ------------------------------------------------------------------ *)
(** ** The registry *)

Lemma ensureLocation_present (env : Env) (w : FSW) (p : string) (i : nat) :
  locations w !! p = Some i -> ensureLocation env w p = (w, i).
Proof. intros H. unfold ensureLocation. rewrite H. reflexivity. Qed.

Lemma ensureLocation_facts (env : Env) (w : FSW) (q : string) :
  wf w ->
  let r := ensureLocation env w q in
  wf (fst r) /\ locations (fst r) !! q = Some (snd r) /\
  (forall p i, locations w !! p = Some i -> locations (fst r) !! p = Some i) /\
  (forall i l, heap w !! i = Some l -> heap (fst r) !! i = Some l).
Proof.
  intros [Hreg Hfresh]. unfold ensureLocation, wf.
  destruct (locations w !! q) as [j |] eqn:Hq; cbn [fst snd locations heap next_id].
  - split; [split; assumption |]. split; [exact Hq |]. auto.
  - split; [split |].
    + intros p i. rewrite lookup_insert. case_decide.
      * intros [= <-]. rewrite lookup_insert_eq. eauto.
      * intros Hp. rewrite lookup_insert_ne.
        -- exact (Hreg p i Hp).
        -- destruct (Hreg p i Hp) as [l Hl]. specialize (Hfresh i l Hl). lia.
    + intros i l. rewrite lookup_insert. case_decide; [lia |].
      intros Hl. specialize (Hfresh i l Hl). lia.
    + split; [apply lookup_insert_eq |]. split.
      * intros p i Hp. rewrite lookup_insert_ne; [exact Hp | congruence].
      * intros i l Hl. rewrite lookup_insert_ne; [exact Hl |].
        specialize (Hfresh i l Hl). lia.
Qed.

Lemma subscribe_facts (w : FSW) (id : nat) (ls : Listener) :
  wf w ->
  let w' := fst (subscribe w id ls) in
  wf w' /\ locations w' = locations w /\
  (forall i, i <> id -> heap w' !! i = heap w !! i) /\
  (forall l, heap w !! id = Some l -> heap w' !! id = Some (set_hub (app (l_hub l) [(next_id w, ls)]) l)).
Proof.
  intros [Hreg Hfresh]. unfold subscribe, fresh, wf. cbn [fst snd locations heap next_id].
  destruct (heap w !! id) as [l0 |] eqn:Hid; cbn [fst snd locations heap next_id upd_loc].
  - split; [split |].
    + intros p i Hp. rewrite lookup_insert. case_decide; [eauto | exact (Hreg p i Hp)].
    + intros i l. rewrite lookup_insert. case_decide.
      * intros _. subst. specialize (Hfresh _ l0 Hid). lia.
      * intros Hl. specialize (Hfresh i l Hl). lia.
    + split; [reflexivity |]. split.
      * intros i Hne. apply lookup_insert_ne. congruence.
      * intros l [= <-]. apply lookup_insert_eq.
  - split; [split |].
    + exact Hreg.
    + intros i l Hl. specialize (Hfresh i l Hl). lia.
    + split; [reflexivity |]. split; [reflexivity | congruence].
Qed.

Lemma watch_unfold (env : Env) (w : FSW) (q : string) (u : nat) :
  watch env w q u =
  (fst (subscribe (fst (ensureLocation env w q)) (snd (ensureLocation env w q)) (LUser u)),
   snd (ensureLocation env w q)).
Proof.
  unfold watch. destruct (ensureLocation env w q) as [w1 id]. simpl.
  destruct (subscribe w1 id (LUser u)). reflexivity.
Qed.

Lemma watch_preserves (env : Env) (w : FSW) (q : string) (u : nat) (path : string) (i : nat)
    (x : Listener) :
  wf w -> locations w !! path = Some i -> hub_has w i x ->
  let w' := fst (watch env w q u) in
  wf w' /\ locations w' !! path = Some i /\ hub_has w' i x.
Proof.
  intros Hwf Hp (l & Hl & Hin). rewrite watch_unfold. simpl.
  destruct (ensureLocation_facts env w q Hwf) as (Hwf1 & _ & Hreg1 & Hheap1).
  set (w1 := fst (ensureLocation env w q)) in *.
  set (j := snd (ensureLocation env w q)).
  destruct (subscribe_facts w1 j (LUser u) Hwf1) as (Hwf2 & Hloc2 & Hoth & Hsame).
  split; [exact Hwf2 |]. split; [rewrite Hloc2; exact (Hreg1 _ _ Hp) |].
  destruct (Nat.eq_dec i j) as [-> | Hne].
  - eexists. split; [exact (Hsame l (Hheap1 _ _ Hl)) |].
    simpl. rewrite map_app. apply in_or_app. left. exact Hin.
  - exists l. split; [rewrite (Hoth i Hne); exact (Hheap1 _ _ Hl) | exact Hin].
Qed.

Lemma watch_all_preserves (env : Env) (path : string) (i : nat) (x : Listener)
    (ws : list (string * nat)) :
  forall w, wf w -> locations w !! path = Some i -> hub_has w i x ->
  let w' := watch_all env w ws in
  wf w' /\ locations w' !! path = Some i /\ hub_has w' i x.
Proof.
  induction ws as [| [q u] r IH]; intros w Hwf Hp Hh; simpl; [auto |].
  destruct (watch_preserves env w q u path i x Hwf Hp Hh) as (H1 & H2 & H3).
  exact (IH _ H1 H2 H3).
Qed.

Lemma wf_w0 : wf w0.
Proof.
  split.
  - intros p i H. unfold w0 in H. cbn [locations] in H. rewrite lookup_empty in H. discriminate.
  - intros i l H. unfold w0 in H. cbn [heap] in H. rewrite lookup_empty in H. discriminate.
Qed.

(* ------------------------------------------------------------------ *)
(** ** The listing containers *)

Lemma set_add_In (x y : string) (s : list string) : In x (set_add y s) <-> In x s \/ x = y.
Proof.
  unfold set_add. destruct (existsb (String.eqb y) s) eqn:E.
  - apply existsb_exists in E as (z & Hz & Hyz). apply String.eqb_eq in Hyz. subst z.
    split; [auto | intros [H | ->]; auto].
  - rewrite in_app_iff. simpl. split; intros [H | H]; auto.
    + destruct H as [H | []]. auto.
Qed.

Lemma set_add_NoDup (y : string) (s : list string) : List.NoDup s -> List.NoDup (set_add y s).
Proof.
  intros H. unfold set_add. destruct (existsb (String.eqb y) s) eqn:E; [exact H |].
  apply List.NoDup_app; [exact H | constructor; [intros [] | constructor] |].
  intros x Hx [-> | []]. apply Bool.not_true_iff_false in E. apply E.
  apply existsb_exists. exists x. split; [exact Hx | apply String.eqb_refl].
Qed.

Lemma set_delete_In (x y : string) (s : list string) : In x (set_delete y s) <-> In x s /\ x <> y.
Proof.
  unfold set_delete. rewrite filter_In. destruct (String.eqb_spec y x); simpl.
  - split; [intros [_ H]; discriminate | intros [_ H]; congruence].
  - split; intros [H1 H2]; auto.
Qed.

Lemma set_delete_NoDup (y : string) (s : list string) : List.NoDup s -> List.NoDup (set_delete y s).
Proof. intros H. unfold set_delete. apply List.NoDup_filter. exact H. Qed.

Lemma map_get_set {V} (k k' : string) (v : V) (m : list (string * V)) :
  map_get k' (map_set k v m) = if String.eqb k' k then Some v else map_get k' m.
Proof.
  induction m as [| [k0 v0] r IH]; simpl; [reflexivity |].
  destruct (String.eqb_spec k k0) as [-> | Hne]; simpl.
  - destruct (String.eqb k' k0); reflexivity.
  - rewrite IH. destruct (String.eqb_spec k' k) as [-> | Hne']; [| reflexivity].
    destruct (String.eqb_spec k k0); [contradiction | reflexivity].
Qed.

Lemma map_get_delete {V} (k k' : string) (m : list (string * V)) :
  map_get k' (map_delete k m) = if String.eqb k' k then None else map_get k' m.
Proof.
  induction m as [| [k0 v0] r IH]; simpl; [destruct (String.eqb k' k); reflexivity |].
  unfold map_delete in *. simpl.
  destruct (String.eqb_spec k k0) as [-> | Hne]; simpl.
  - rewrite IH. destruct (String.eqb k' k0); reflexivity.
  - rewrite IH. destruct (String.eqb_spec k' k) as [-> | Hne']; simpl.
    + destruct (String.eqb_spec k k0); [contradiction | reflexivity].
    + reflexivity.
Qed.

Lemma map_set_keys {V} (k : string) (v : V) (m : list (string * V)) :
  map fst (map_set k v m) = if existsb (String.eqb k) (map fst m) then map fst m else app (map fst m) [k].
Proof.
  induction m as [| [k0 v0] r IH]; simpl; [reflexivity |].
  destruct (String.eqb_spec k k0) as [-> | Hne]; simpl; [reflexivity |].
  rewrite IH. destruct (existsb (String.eqb k) (map fst r)); reflexivity.
Qed.

Lemma map_set_NoDup {V} (k : string) (v : V) (m : list (string * V)) :
  List.NoDup (map fst m) -> List.NoDup (map fst (map_set k v m)).
Proof. intros H. rewrite map_set_keys. apply (set_add_NoDup k _ H). Qed.

Lemma map_delete_NoDup {V} (k : string) (m : list (string * V)) :
  List.NoDup (map fst m) -> List.NoDup (map fst (map_delete k m)).
Proof.
  induction m as [| [k0 v0] r IH]; intros H; simpl; [constructor |].
  unfold map_delete in *. simpl. inversion H as [| ? ? Hn Hr]; subst.
  destruct (String.eqb k k0); simpl; [exact (IH Hr) |].
  constructor; [| exact (IH Hr)].
  intros Hin. apply Hn. apply in_map_iff in Hin as ([a b] & Ha & Hin). simpl in Ha. subst a.
  apply filter_In in Hin as [Hin _]. apply in_map_iff. exists (k0, b). auto.
Qed.

(* ------------------------------------------------------------------ *)
(** ** Listing updates of the native watch callback *)

Ltac native_step H :=
  unfold nativeEventStep in H;
  match type of H with context [getStats ?env ?p] =>
    destruct (getStats env p) as [[?s |] | ?e] eqn:?Hgs; simpl in H; [| | discriminate]
  end.

(** [onNativeWatcherEvent] keeps [filePaths] and [subdirPaths] free of
    duplicates and the names of [entries] unique. *)
Theorem nativeEventStep_keeps_listing_nodup (env : Env) (l l' : Loc) (ne : NativeEvent)
    (fn : option string) (pub : option (Event * string * option Stats))
    (Hnd : listing_nodup l) (Hstep : nativeEventStep env l ne fn = Ok (l', pub)) :
  listing_nodup l'.
Proof.
  destruct Hnd as (H1 & H2 & H3).
  destruct fn as [[| c fn'] |];
    [injection Hstep as <- _; split; auto | | injection Hstep as <- _; split; auto].
  native_step Hstep; destruct ne.
  - destruct (isDirectoryStats s); injection Hstep as <- _; unfold listing_nodup; cbn [l_filePaths l_subdirPaths l_entries set_listing];
      (split; [| split]); auto using set_add_NoDup, map_set_NoDup.
  - injection Hstep as <- _. split; auto.
  - injection Hstep as <- _. unfold listing_nodup; simpl.
    (split; [| split]); auto using set_delete_NoDup, map_delete_NoDup.
  - injection Hstep as <- _. split; auto.
Qed.

Lemma nativeEventStep_keeps_listing_nodup_witness :
  listing_nodup (loc_at ex_online 0) /\
  nativeEventStep ex_env (loc_at ex_online 0) NRename (Some "a.txt") =
    Ok (set_listing ["/tmp/d/a.txt"] [] [("a.txt", ex_file)] (loc_at ex_online 0),
        Some (EvAdd, "/tmp/d/a.txt", Some ex_file)) /\
  listing_nodup (set_listing ["/tmp/d/a.txt"] [] [("a.txt", ex_file)] (loc_at ex_online 0)).
Proof.
  assert (Hnd : listing_nodup (loc_at ex_online 0))
    by (vm_compute; split; [constructor | split; constructor]).
  assert (Hs : nativeEventStep ex_env (loc_at ex_online 0) NRename (Some "a.txt") =
    Ok (set_listing ["/tmp/d/a.txt"] [] [("a.txt", ex_file)] (loc_at ex_online 0),
        Some (EvAdd, "/tmp/d/a.txt", Some ex_file))) by (vm_compute; reflexivity).
  split; [exact Hnd |]. split; [exact Hs |].
  exact (nativeEventStep_keeps_listing_nodup ex_env _ _ NRename _ _ Hnd Hs).
Defined.

(** A [rename] for an existing name only adds: its path joins
    [subdirPaths] (directory) or [filePaths] (anything else) and nothing is
    removed from either set, so a name that changed kind stays listed under
    its old kind as well. *)
Theorem rename_add_only_adds (env : Env) (l : Loc) (fn : string) (s : Stats)
    (Hfn : fn <> "") (Hs : env_stat env (Path.join (l_path l) fn) = StatOk s) :
  let p := Path.join (l_path l) fn in
  exists l', nativeEventStep env l NRename (Some fn) = Ok (l', Some (EvAdd, p, Some s)) /\
    In p (if isDirectoryStats s then l_subdirPaths l' else l_filePaths l') /\
    (forall x, In x (l_filePaths l) -> In x (l_filePaths l')) /\
    (forall x, In x (l_subdirPaths l) -> In x (l_subdirPaths l')).
Proof.
  destruct fn as [| c fn']; [contradiction |].
  cbv zeta. unfold nativeEventStep, getStats. rewrite Hs. simpl.
  destruct (isDirectoryStats s); eexists; (split; [reflexivity |]); simpl;
    (split; [apply set_add_In; right; reflexivity |]);
    split; intros x Hx; try exact Hx; apply set_add_In; left; exact Hx.
Qed.

(** [/tmp/d] lists [a.txt] as a file; [a.txt] is replaced by a directory:
    after the [rename] it is in both [filePaths] and [subdirPaths]. *)
Lemma rename_add_only_adds_witness :
  let l := set_listing ["/tmp/d/a.txt"] [] [("a.txt", ex_file)] (loc_at ex_online 0) in
  "a.txt" <> "" /\ env_stat ex_env_replaced "/tmp/d/a.txt" = StatOk ex_dir /\
  exists l', nativeEventStep ex_env_replaced l NRename (Some "a.txt") =
      Ok (l', Some (EvAdd, "/tmp/d/a.txt", Some ex_dir)) /\
    In "/tmp/d/a.txt" (l_subdirPaths l') /\
    (forall x, In x (l_filePaths l) -> In x (l_filePaths l')) /\
    (forall x, In x (l_subdirPaths l) -> In x (l_subdirPaths l')).
Proof.
  split; [discriminate |]. split; [reflexivity |].
  exact (rename_add_only_adds ex_env_replaced
           (set_listing ["/tmp/d/a.txt"] [] [("a.txt", ex_file)] (loc_at ex_online 0))
           "a.txt" ex_dir ltac:(discriminate) eq_refl).
Defined.

(** [entries] after a callback for a non-empty name [fn]: other names keep
    their records; [change] leaves the map as it was; [rename] makes [fn]
    map to the fresh stats when the path exists and removes it when the
    stat fails with [ENOENT]. *)
Theorem nativeEventStep_entries (env : Env) (l l' : Loc) (ne : NativeEvent) (fn : string)
    (pub : option (Event * string * option Stats))
    (Hfn : fn <> "") (Hstep : nativeEventStep env l ne (Some fn) = Ok (l', pub)) :
  (forall g, g <> fn -> map_get g (l_entries l') = map_get g (l_entries l)) /\
  (ne = NChange -> l_entries l' = l_entries l) /\
  (ne = NRename ->
     map_get fn (l_entries l') =
     match env_stat env (Path.join (l_path l) fn) with StatOk s => Some s | StatErr _ => None end).
Proof.
  destruct fn as [| c fn']; [contradiction |].
  native_step Hstep; pose proof (getStats_ok _ _ _ Hgs) as Hget; destruct ne.
  - assert (E : l_entries l' = map_set (String c fn') s (l_entries l))
      by (destruct (isDirectoryStats s); injection Hstep as <- _; reflexivity).
    rewrite E. split; [| split; [discriminate |]].
    + intros g Hg. rewrite map_get_set. destruct (String.eqb_spec g (String c fn')); congruence.
    + intros _. rewrite Hget, map_get_set, String.eqb_refl. reflexivity.
  - injection Hstep as <- _. split; [reflexivity |]. split; [reflexivity | discriminate].
  - injection Hstep as <- _. simpl. split; [| split; [discriminate |]].
    + intros g Hg. rewrite map_get_delete. destruct (String.eqb_spec g (String c fn')); congruence.
    + intros _. rewrite Hget, map_get_delete, String.eqb_refl. reflexivity.
  - injection Hstep as <- _. split; [reflexivity |]. split; [reflexivity | discriminate].
Qed.

Lemma nativeEventStep_entries_witness :
  "a.txt" <> "" /\
  nativeEventStep ex_env (loc_at ex_online 0) NRename (Some "a.txt") =
    Ok (set_listing ["/tmp/d/a.txt"] [] [("a.txt", ex_file)] (loc_at ex_online 0),
        Some (EvAdd, "/tmp/d/a.txt", Some ex_file)) /\
  map_get "a.txt"
    (l_entries (set_listing ["/tmp/d/a.txt"] [] [("a.txt", ex_file)] (loc_at ex_online 0))) =
    Some ex_file.
Proof.
  assert (Hs : nativeEventStep ex_env (loc_at ex_online 0) NRename (Some "a.txt") =
    Ok (set_listing ["/tmp/d/a.txt"] [] [("a.txt", ex_file)] (loc_at ex_online 0),
        Some (EvAdd, "/tmp/d/a.txt", Some ex_file))) by (vm_compute; reflexivity).
  split; [discriminate |]. split; [exact Hs |].
  destruct (nativeEventStep_entries ex_env _ _ NRename "a.txt" _ ltac:(discriminate) Hs)
    as (_ & _ & H). rewrite (H eq_refl). reflexivity.
Defined.

(* ------------------------------------------------------------------ *)
(** ** The listing built by [initializeEntries] *)

Lemma classifyEntries_cons (path : string) (e : Dirent) (es : list Dirent) (fp sp : list string) :
  classifyEntries path (e :: es) fp sp =
  match d_kind e with
  | KFile => classifyEntries path es (set_add (Path.join path (d_name e)) fp) sp
  | KDir => classifyEntries path es fp (set_add (Path.join path (d_name e)) sp)
  | KOther => classifyEntries path es fp sp
  end.
Proof. unfold classifyEntries. simpl. destruct (d_kind e); reflexivity. Qed.

Lemma classifyEntries_spec (path : string) (es : list Dirent) :
  forall fp sp,
  let r := classifyEntries path es fp sp in
  (forall x, In x (fst r) <->
     In x fp \/ exists e, In e es /\ d_kind e = KFile /\ x = Path.join path (d_name e)) /\
  (forall x, In x (snd r) <->
     In x sp \/ exists e, In e es /\ d_kind e = KDir /\ x = Path.join path (d_name e)) /\
  (List.NoDup fp -> List.NoDup (fst r)) /\ (List.NoDup sp -> List.NoDup (snd r)).
Proof.
  induction es as [| e es IH]; intros fp sp r.
  - subst r. unfold classifyEntries. simpl.
    split; [| split]; [intros x; split; [left; exact H | intros [H | (? & [] & _)]; exact H] ..
                      | split; auto].
  - subst r. rewrite classifyEntries_cons.
    destruct (d_kind e) eqn:Hk.
    + destruct (IH (set_add (Path.join path (d_name e)) fp) sp) as (H1 & H2 & H3 & H4).
      split; [| split; [| split]].
      * intros x. rewrite H1, set_add_In. split.
        -- intros [[Hx | Hx] | (e' & He' & Hk' & Hx)]; [left; exact Hx | right; exists e; simpl; auto
             | right; exists e'; simpl; auto].
        -- intros [Hx | (e' & [He' | He'] & Hk' & Hx)]; [left; left; exact Hx | | right; exists e'; auto].
           subst e'. left; right; exact Hx.
      * intros x. rewrite H2. split.
        -- intros [Hx | (e' & He' & Hk' & Hx)]; [left; exact Hx | right; exists e'; simpl; auto].
        -- intros [Hx | (e' & [He' | He'] & Hk' & Hx)]; [left; exact Hx | | right; exists e'; auto].
           subst e'. congruence.
      * intros Hn. apply H3, set_add_NoDup, Hn.
      * exact H4.
    + destruct (IH fp (set_add (Path.join path (d_name e)) sp)) as (H1 & H2 & H3 & H4).
      split; [| split; [| split]].
      * intros x. rewrite H1. split.
        -- intros [Hx | (e' & He' & Hk' & Hx)]; [left; exact Hx | right; exists e'; simpl; auto].
        -- intros [Hx | (e' & [He' | He'] & Hk' & Hx)]; [left; exact Hx | | right; exists e'; auto].
           subst e'. congruence.
      * intros x. rewrite H2, set_add_In. split.
        -- intros [[Hx | Hx] | (e' & He' & Hk' & Hx)]; [left; exact Hx | right; exists e; simpl; auto
             | right; exists e'; simpl; auto].
        -- intros [Hx | (e' & [He' | He'] & Hk' & Hx)]; [left; left; exact Hx | | right; exists e'; auto].
           subst e'. left; right; exact Hx.
      * exact H3.
      * intros Hn. apply H4, set_add_NoDup, Hn.
    + destruct (IH fp sp) as (H1 & H2 & H3 & H4).
      split; [| split; [| split]].
      * intros x. rewrite H1. split.
        -- intros [Hx | (e' & He' & Hk' & Hx)]; [left; exact Hx | right; exists e'; simpl; auto].
        -- intros [Hx | (e' & [He' | He'] & Hk' & Hx)]; [left; exact Hx | | right; exists e'; auto].
           subst e'. congruence.
      * intros x. rewrite H2. split.
        -- intros [Hx | (e' & He' & Hk' & Hx)]; [left; exact Hx | right; exists e'; simpl; auto].
        -- intros [Hx | (e' & [He' | He'] & Hk' & Hx)]; [left; exact Hx | | right; exists e'; auto].
           subst e'. congruence.
      * exact H3.
      * exact H4.
Qed.

(** [initializeEntries] on an existing non-file location whose listing
    succeeds: [filePaths] holds exactly the joined paths of the [file]
    entries, [subdirPaths] exactly those of the [directory] entries (other
    kinds are skipped), neither holds a duplicate, and [entries] and the
    stats are left as they were. *)
Theorem initializeEntries_classifies (env : Env) (l l' : Loc) (es : list Dirent)
    (Hex : exists_ l = true) (Hnf : isFile l = false)
    (Hrd : env_readdir env (l_path l) = ReaddirOk es)
    (Hok : initializeEntries env l = Ok l') :
  l_filePaths l = [] /\ l_subdirPaths l = [] /\
  (forall x, In x (l_filePaths l') <->
     exists e, In e es /\ d_kind e = KFile /\ x = Path.join (l_path l) (d_name e)) /\
  (forall x, In x (l_subdirPaths l') <->
     exists e, In e es /\ d_kind e = KDir /\ x = Path.join (l_path l) (d_name e)) /\
  List.NoDup (l_filePaths l') /\ List.NoDup (l_subdirPaths l') /\
  l_entries l' = l_entries l /\ l_stats l' = l_stats l.
Proof.
  unfold initializeEntries in Hok. rewrite Hnf, Hex, Hrd in Hok. simpl in Hok.
  destruct (l_filePaths l) as [| f fs] eqn:Hf; [| discriminate].
  destruct (l_subdirPaths l) as [| d ds] eqn:Hd; [| discriminate].
  simpl in Hok.
  destruct (classifyEntries_spec (l_path l) es [] []) as (H1 & H2 & H3 & H4).
  destruct (classifyEntries (l_path l) es [] []) as [fp sp]. injection Hok as <-.
  simpl in *. split; [reflexivity |]. split; [reflexivity |].
  split; [| split; [| split; [| split; [| split]]]].
  - intros x. rewrite H1. split; [intros [[] | H]; exact H | intros H; right; exact H].
  - intros x. rewrite H2. split; [intros [[] | H]; exact H | intros H; right; exact H].
  - apply H3. constructor.
  - apply H4. constructor.
  - reflexivity.
  - reflexivity.
Qed.

Lemma initializeEntries_classifies_witness :
  let env := mkEnv ex_stat (fun _ => ReaddirOk ex_listing) "/home/u" (fun _ => None) in
  let l := set_stats (Some ex_dir) (newLocation env "/tmp/d") in
  exists l', initializeEntries env l = Ok l' /\
    l_filePaths l' = ["/tmp/d/a.txt"] /\ l_subdirPaths l' = ["/tmp/d/sub"] /\
    List.NoDup (l_filePaths l').
Proof.
  eexists. split; [vm_compute; reflexivity |].
  split; [reflexivity |]. split; [reflexivity |].
  refine (proj1 (proj2 (proj2 (proj2 (proj2
    (initializeEntries_classifies (mkEnv ex_stat (fun _ => ReaddirOk ex_listing) "/home/u" (fun _ => None))
       (set_stats (Some ex_dir) (newLocation (mkEnv ex_stat (fun _ => ReaddirOk ex_listing) "/home/u" (fun _ => None)) "/tmp/d"))
       _ ex_listing eq_refl eq_refl eq_refl _)))))).
  vm_compute. reflexivity.
Defined.

(* ------------------------------------------------------------------ *)
(** ** Children of a location and the attachment to the parent *)

Lemma attachChild_children (w : FSW) (pid cid : nat) (cpath : string) (sig : nat) (p : Loc) :
  heap w !! pid = Some p ->
  exists p', heap (attachChild w pid cid cpath sig) !! pid = Some p' /\
    l_attachedChildren p' = Some (map_set cpath cid (default [] (l_attachedChildren p))).
Proof.
  intros Hp. destruct (l_childrenAbortController p) as [ca |] eqn:Hca.
  - destruct (attachChild_again w pid cid cpath sig p ca Hp Hca) as (p' & H1 & _ & _ & H2).
    eauto.
  - destruct (attachChild_first w pid cid cpath sig p Hp Hca) as (_ & p' & H1 & _ & _ & H2).
    eauto.
Qed.

Lemma attachChild_locations (w : FSW) (pid cid : nat) (cpath : string) (sig : nat) :
  locations (attachChild w pid cid cpath sig) = locations w.
Proof.
  unfold attachChild. destruct (heap w !! pid) as [p |]; [| reflexivity].
  destruct (l_childrenAbortController p); [reflexivity |].
  unfold subscribe, fresh. cbn [fst snd heap].
  destruct (heap w !! pid); cbn; repeat case_match; reflexivity.
Qed.

Lemma wf_upd_fresh (w : FSW) (id : nat) (l : Loc) :
  wf w -> is_Some (heap w !! id) -> wf (upd_loc id l (fst (fresh w))).
Proof.
  intros [H1 H2] Hid. unfold wf, upd_loc, fresh. cbn [fst locations heap next_id].
  split.
  - intros p i Hp. destruct (decide (i = id)) as [-> | Hne].
    + rewrite lookup_insert_eq. eauto.
    + rewrite lookup_insert_ne by congruence. eauto.
  - intros i l' Hi. destruct (decide (i = id)) as [-> | Hne].
    + destruct Hid as [l0 Hl0]. specialize (H2 _ _ Hl0). lia.
    + rewrite lookup_insert_ne in Hi by congruence. specialize (H2 _ _ Hi). lia.
Qed.

(* ------------------------------------------------------------------ *)
(** ** The location's own subscription *)

Section SelfStats.
Variable sig : FSW -> nat -> Event -> string -> option Stats -> Res FSW.
Variable env : Env.
Variable id : nat.
Variable self : Loc.
Variable event : Event.
Variable path : string.
Variable stats : option Stats.

Lemma onSubscriptionEvent_stats_at (w : FSW) :
  is_Some (heap w !! id) -> stats_at id stats (onSubscriptionEvent w id stats).
Proof.
  intros [l Hl]. unfold stats_at, onSubscriptionEvent. rewrite Hl.
  exists (set_stats stats l). split; [apply lookup_insert_eq | reflexivity].
Qed.

Lemma onSubscriptionEvent_is_Some (w : FSW) :
  is_Some (heap w !! id) -> is_Some (heap (onSubscriptionEvent w id stats) !! id).
Proof. intros H. destruct (onSubscriptionEvent_stats_at w H) as (l & Hl & _). eauto. Qed.

Lemma deliver_keeps_stats_at (subs : list (nat * Listener)) :
  Forall (fun x => snd x <> LForward) subs ->
  forall w w', deliver sig env id self event path stats w subs = Ok w' ->
  stats_at id stats w -> stats_at id stats w'.
Proof.
  induction subs as [| [sid ls] r IH]; intros Hf w w' H Hs; simpl in H.
  - injection H as <-. exact Hs.
  - inversion Hf as [| ? ? Hx Hr]; subst. simpl in Hx.
    destruct ls as [u | |]; [| | contradiction].
    + exact (IH Hr _ _ H Hs).
    + apply (IH Hr _ _ H). apply onSubscriptionEvent_stats_at.
      destruct Hs as (l & Hl & _). eauto.
Qed.

Lemma deliver_sets_stats_at (subs : list (nat * Listener)) :
  Forall (fun x => snd x <> LForward) subs -> In LSelf (map snd subs) ->
  forall w w', deliver sig env id self event path stats w subs = Ok w' ->
  is_Some (heap w !! id) -> stats_at id stats w'.
Proof.
  induction subs as [| [sid ls] r IH]; intros Hf Hin w w' H Hs; [destruct Hin |].
  simpl in H, Hin. inversion Hf as [| ? ? Hx Hr]; subst. simpl in Hx.
  destruct ls as [u | |]; [| | contradiction].
  - destruct Hin as [Heq | Hin]; [discriminate |]. exact (IH Hr Hin _ _ H Hs).
  - exact (deliver_keeps_stats_at r Hr _ _ H (onSubscriptionEvent_stats_at w Hs)).
Qed.

End SelfStats.

(** A directory location whose hub has its own subscription and no
    forwarding one (no child is attached): after the native watch
    reports a new entry [fn], the location's own stats are the stats of
    [/path/fn], since [onSubscriptionEvent] stores the stats of every
    event it hears. *)
Theorem native_add_overwrites_own_stats (fuel : nat) (env : Env) (w w' : FSW) (id : nat)
    (l : Loc) (fn : string) (s : Stats)
    (Hl : heap w !! id = Some l) (Hself : In LSelf (map snd (l_hub l)))
    (Hnf : Forall (fun x => snd x <> LForward) (l_hub l)) (Hfn : fn <> "")
    (Hs : env_stat env (Path.join (l_path l) fn) = StatOk s)
    (Hok : onNativeWatcherEvent (S fuel) env w id NRename (Some fn) = Ok w') :
  exists l', heap w' !! id = Some l' /\ l_stats l' = Some s.
Proof.
  unfold onNativeWatcherEvent in Hok. rewrite Hl in Hok.
  assert (Hn : exists l1, nativeEventStep env l NRename (Some fn) =
                 Ok (l1, Some (EvAdd, Path.join (l_path l) fn, Some s)) /\ l_hub l1 = l_hub l).
  { destruct fn as [| c fn']; [contradiction |].
    unfold nativeEventStep, getStats. rewrite Hs. simpl.
    destruct (isDirectoryStats s); eexists; split; reflexivity. }
  destruct Hn as (l1 & Hn & Hh). rewrite Hn in Hok. cbn [res_bind fst snd signal] in Hok.
  unfold upd_loc at 1 in Hok. cbn [heap] in Hok. rewrite lookup_insert_eq in Hok.
  rewrite Hh in Hok.
  eapply deliver_sets_stats_at; [exact Hnf | exact Hself | exact Hok |].
  cbn [heap upd_loc]. rewrite lookup_insert_eq. eauto.
Qed.

(** [/tmp/d] is online in [ex_online] with no child attached; [a.txt]
    appears: the directory's location then reports a file of size 10. *)
Lemma native_add_overwrites_own_stats_witness :
  exists w', onNativeWatcherEvent 8 ex_env ex_online 0 NRename (Some "a.txt") = Ok w' /\
    exists l', heap w' !! 0 = Some l' /\ l_stats l' = Some ex_file.
Proof.
  eexists. split; [vm_compute; reflexivity |].
  refine (native_add_overwrites_own_stats 7 ex_env ex_online _ 0 (loc_at ex_online 0)
            "a.txt" ex_file _ _ _ _ eq_refl _).
  - vm_compute. reflexivity.
  - vm_compute. auto.
  - vm_compute. repeat constructor; discriminate.
  - discriminate.
  - vm_compute. reflexivity.
Defined.

(* ------------------------------------------------------------------ *)
(** ** [offline] and a later [online] *)

Lemma offline_loc_fields (l : Loc) :
  l_path (offline_loc l) = l_path l /\ l_filePaths (offline_loc l) = [] /\
  l_subdirPaths (offline_loc l) = [] /\
  l_watcher (offline_loc l) = option_map (fun h => mkHandle (h_id h) false) (l_watcher l).
Proof. unfold offline_loc. destruct (l_sub l); repeat split. Qed.

Lemma modify_loc_some (w : FSW) (id : nat) (f : Loc -> Res Loc) (l : Loc) :
  heap w !! id = Some l -> modify_loc w id f = (let! l' := f l in Ok (upd_loc id l' w)).
Proof. intros H. unfold modify_loc. rewrite H. reflexivity. Qed.

Lemma initializeEntries_watcher (env : Env) (l l' : Loc) :
  initializeEntries env l = Ok l' -> l_watcher l' = l_watcher l.
Proof.
  unfold initializeEntries. destruct (isFile l || negb (exists_ l)); [intros [= <-]; reflexivity |].
  destruct (env_readdir env (l_path l)); [| discriminate].
  destruct (_ || _); [discriminate |].
  destruct (classifyEntries _ _ _ _). intros [= <-]. reflexivity.
Qed.

(** A location that held a watch handle cannot be brought online again
    after [offline]: [offline] closes the handle but keeps it in
    [#watcher], so unless the path has become a file, [online] ends in the
    ["Watcher already initialized"] error (or earlier in an error of
    [statSync] or [readdirSync]). *)
Theorem online_after_offline_throws (env : Env) (w : FSW) (id : nat) (l : Loc) (h : Handle)
    (Hl : heap w !! id = Some l) (Hw : l_watcher l = Some h)
    (Hnf : forall s, env_stat env (l_path l) = StatOk s -> isFileStats s = false) :
  online env (offline w id) id = Throw (BugError initializeWatcher_bug) \/
  exists code, online env (offline w id) id = Throw (OSError code).
Proof.
  destruct (offline_at w id l Hl) as (Ho & _ & _).
  destruct (offline_loc_fields l) as (Hp & Hfp & Hsp & Hwt).
  unfold online. rewrite Ho, Hp.
  destruct (getStats env (l_path l)) as [st | e] eqn:Hg; cbn [res_bind].
  2: { right. unfold getStats in Hg. destruct (env_stat env (l_path l)); [discriminate |].
       destruct (String.eqb _ _); [discriminate |]. injection Hg as <-. eauto. }
  rewrite (modify_loc_some _ id _ (set_stats st (offline_loc l))) by apply lookup_insert_eq.
  destruct (initializeEntries env (set_stats st (offline_loc l))) as [l2 | e] eqn:Hi;
    cbn [res_bind].
  2: { right. unfold initializeEntries in Hi.
       destruct (_ || _); [discriminate |].
       destruct (env_readdir _ _); [| injection Hi as <-; eauto].
       cbn [l_filePaths l_subdirPaths set_stats] in Hi. rewrite Hfp, Hsp in Hi.
       cbn in Hi. destruct (classifyEntries _ _ _ _). discriminate. }
  left.
  destruct (initializeEntries_stats_path _ _ _ Hi) as [Hst _].
  pose proof (initializeEntries_watcher _ _ _ Hi) as Hw2.
  unfold initializeWatcher. unfold upd_loc at 1. cbn [heap]. rewrite lookup_insert_eq.
  assert (Hf : isFile l2 = false).
  { unfold isFile. rewrite Hst. cbn [l_stats set_stats].
    pose proof (getStats_ok _ _ _ Hg) as Hgo. destruct st as [s |]; [| reflexivity].
    exact (Hnf s Hgo). }
  rewrite Hf, Hw2. cbn [l_watcher set_stats]. rewrite Hwt, Hw. reflexivity.
Qed.

Lemma online_after_offline_throws_witness :
  heap ex_online !! 0 = Some (loc_at ex_online 0) /\
  l_watcher (loc_at ex_online 0) = Some (mkHandle 2 true) /\
  (online ex_env (offline ex_online 0) 0 = Throw (BugError initializeWatcher_bug) \/
   exists code, online ex_env (offline ex_online 0) 0 = Throw (OSError code)).
Proof.
  assert (Hl : heap ex_online !! 0 = Some (loc_at ex_online 0)) by (vm_compute; reflexivity).
  assert (Hw : l_watcher (loc_at ex_online 0) = Some (mkHandle 2 true)) by (vm_compute; reflexivity).
  split; [exact Hl |]. split; [exact Hw |].
  refine (online_after_offline_throws ex_env ex_online 0 _ _ Hl Hw _).
  intros s Hs. vm_compute in Hs. injection Hs as <-. reflexivity.
Defined.

(* ------------------------------------------------------------------ *)
(** ** What [online] records *)

Lemma wf_upd (w : FSW) (id : nat) (l : Loc) :
  wf w -> is_Some (heap w !! id) -> wf (upd_loc id l w).
Proof.
  intros [H1 H2] Hid. unfold wf, upd_loc. cbn [locations heap next_id]. split.
  - intros p i Hp. destruct (decide (i = id)) as [-> | Hne].
    + rewrite lookup_insert_eq. eauto.
    + rewrite lookup_insert_ne by congruence. eauto.
  - intros i l' Hi. destruct (decide (i = id)) as [-> | Hne].
    + destruct Hid as [l0 Hl0]. exact (H2 _ _ Hl0).
    + rewrite lookup_insert_ne in Hi by congruence. exact (H2 _ _ Hi).
Qed.

Lemma attachChild_keeps_stats (w : FSW) (pid cid : nat) (cpath : string) (sig i : nat) (l : Loc) :
  heap w !! i = Some l ->
  exists l', heap (attachChild w pid cid cpath sig) !! i = Some l' /\ l_stats l' = l_stats l.
Proof.
  intros Hl. unfold attachChild. destruct (heap w !! pid) as [p |] eqn:Hp; [| eauto].
  destruct (l_childrenAbortController p) as [ca |].
  - unfold upd_loc. cbn [heap]. destruct (decide (i = pid)) as [-> | Hne].
    + rewrite lookup_insert_eq. rewrite Hp in Hl. injection Hl as <-. eauto.
    + rewrite lookup_insert_ne by congruence. eauto.
  - unfold subscribe, fresh. cbv beta iota zeta. cbn [heap]. rewrite Hp.
    unfold upd_loc. cbv beta iota zeta. cbn [heap]. rewrite lookup_insert_eq.
    cbv beta iota zeta. cbn [heap].
    destruct (decide (i = pid)) as [-> | Hne].
    + rewrite lookup_insert_eq. rewrite Hp in Hl. injection Hl as <-. eauto.
    + rewrite !lookup_insert_ne by congruence. eauto.
Qed.

Lemma attachChild_wf (w : FSW) (pid cid : nat) (cpath : string) (sig : nat) :
  wf w -> wf (attachChild w pid cid cpath sig).
Proof.
  intros Hwf. unfold attachChild. destruct (heap w !! pid) as [p |] eqn:Hp; [| exact Hwf].
  destruct (l_childrenAbortController p) as [ca |].
  - apply wf_upd; [exact Hwf | eauto].
  - destruct (subscribe_facts w pid LForward Hwf) as (Hwf1 & _ & _ & Hs).
    destruct (subscribe w pid LForward) as [w1 sub]. cbn [fst] in Hwf1, Hs.
    specialize (Hs p Hp).
    assert (Hwf2 : wf (upd_loc pid (set_hub (app (l_hub p) [(next_id w, LForward)]) p)
                         (fst (fresh w1)))) by (apply wf_upd_fresh; eauto).
    unfold fresh at 1. cbv beta iota zeta. cbn [heap]. rewrite Hs.
    apply wf_upd.
    + destruct Hwf1 as [A B]. split; cbn [locations heap next_id].
      * exact A.
      * intros i l Hi. specialize (B _ _ Hi). lia.
    + cbn [heap]. eauto.
Qed.

Lemma attachToParentLocation_keeps_stats (env : Env) (w : FSW) (id i : nat) (l : Loc) :
  wf w -> heap w !! i = Some l ->
  exists l', heap (attachToParentLocation env w id) !! i = Some l' /\ l_stats l' = l_stats l.
Proof.
  intros Hwf Hl. unfold attachToParentLocation. destruct (heap w !! id) as [l0 |] eqn:H0; [| eauto].
  destruct (negb (l_shouldWatchParent l0)); [eauto |].
  set (w2 := upd_loc id (set_watchingParent (Some (next_id w)) l0) (fst (fresh w))).
  change (let '(w1, sig) := fresh w in _) with
    (let '(w3, pid) := ensureLocation env w2 (l_parentPath l0) in
     attachChild w3 pid id (l_path l0) (next_id w)).
  assert (Hwf2 : wf w2) by (apply wf_upd_fresh; eauto).
  assert (Hl2 : exists l2, heap w2 !! i = Some l2 /\ l_stats l2 = l_stats l).
  { subst w2. unfold upd_loc. cbn [heap fresh fst]. destruct (decide (i = id)) as [-> | Hne].
    - rewrite lookup_insert_eq. rewrite H0 in Hl. injection Hl as <-. eauto.
    - rewrite lookup_insert_ne by congruence. eauto. }
  destruct Hl2 as (l2 & Hl2 & Hs2).
  pose proof (ensureLocation_facts env w2 (l_parentPath l0) Hwf2) as (_ & _ & _ & Hh).
  destruct (ensureLocation env w2 (l_parentPath l0)) as [w3 pid]. cbn [fst] in Hh.
  destruct (attachChild_keeps_stats w3 pid id (l_path l0) (next_id w) i l2 (Hh _ _ Hl2))
    as (l' & H1 & H2).
  exists l'. split; [exact H1 | congruence].
Qed.

Lemma attachToParentLocation_wf (env : Env) (w : FSW) (id : nat) :
  wf w -> wf (attachToParentLocation env w id).
Proof.
  intros Hwf. unfold attachToParentLocation. destruct (heap w !! id) as [l0 |] eqn:H0; [| exact Hwf].
  destruct (negb (l_shouldWatchParent l0)); [exact Hwf |].
  set (w2 := upd_loc id (set_watchingParent (Some (next_id w)) l0) (fst (fresh w))).
  change (let '(w1, sig) := fresh w in _) with
    (let '(w3, pid) := ensureLocation env w2 (l_parentPath l0) in
     attachChild w3 pid id (l_path l0) (next_id w)).
  assert (Hwf2 : wf w2) by (apply wf_upd_fresh; eauto).
  pose proof (ensureLocation_facts env w2 (l_parentPath l0) Hwf2) as (Hwf3 & _).
  destruct (ensureLocation env w2 (l_parentPath l0)) as [w3 pid].
  apply attachChild_wf. exact Hwf3.
Qed.

(** A successful [online] of a location stores the stat snapshot of its
    path ([undefined] when it does not exist) in [#stats], subscribes the
    location to its own hub and keeps that subscription in [#sub]. *)
Theorem online_records_stats_and_self (env : Env) (w w' : FSW) (id : nat) (l : Loc)
    (Hwf : wf w) (Hl : heap w !! id = Some l) (Hon : online env w id = Ok w') :
  exists l' sid, heap w' !! id = Some l' /\
    l_stats l' = match env_stat env (l_path l) with StatOk s => Some s | StatErr _ => None end /\
    l_sub l' = Some sid /\ In (sid, LSelf) (l_hub l').
Proof.
  unfold online in Hon. rewrite Hl in Hon.
  destruct (getStats env (l_path l)) as [st |] eqn:Hg; [| discriminate]. cbn [res_bind] in Hon.
  assert (Hst : st = match env_stat env (l_path l) with StatOk s => Some s | StatErr _ => None end).
  { pose proof (getStats_ok _ _ _ Hg) as Ho. destruct st as [s |]; rewrite Ho; reflexivity. }
  set (w1 := upd_loc id (set_stats st l) w) in Hon.
  assert (Hwf1 : wf w1) by (apply wf_upd; eauto).
  rewrite (modify_loc_some w1 id _ (set_stats st l)) in Hon by apply lookup_insert_eq.
  destruct (initializeEntries env (set_stats st l)) as [l2 |] eqn:Hi; [| discriminate].
  cbn [res_bind] in Hon.
  destruct (initializeEntries_stats_path _ _ _ Hi) as [Hs2 _].
  set (w2 := upd_loc id l2 w1) in Hon.
  assert (Hwf2 : wf w2) by (apply wf_upd; [exact Hwf1 | subst w1; cbn [heap upd_loc];
                                              rewrite lookup_insert_eq; eauto]).
  assert (Hl2 : heap w2 !! id = Some l2) by apply lookup_insert_eq.
  destruct (initializeWatcher env w2 id) as [w3 |] eqn:Hw; [| discriminate]. cbn [res_bind] in Hon.
  assert (Hw3 : wf w3 /\ exists l3, heap w3 !! id = Some l3 /\ l_stats l3 = l_stats l2).
  { revert Hw. unfold initializeWatcher. rewrite Hl2.
    destruct (isFile l2); [intros [= <-]; eauto |].
    destruct (l_watcher l2); [discriminate |].
    destruct (env_watch env (l_path l2)); [discriminate |].
    unfold fresh. cbv beta iota zeta. intros [= <-]. split.
    - pose proof (wf_upd_fresh w2 id (set_watcher (Some (mkHandle (next_id w2) true)) l2) Hwf2
                    ltac:(eauto)) as [A B].
      split; exact A || exact B.
    - eexists. split; [cbn [heap upd_loc]; apply lookup_insert_eq | reflexivity]. }
  destruct Hw3 as (Hwf3 & l3 & Hl3 & Hs3).
  destruct (attachToParentLocation_keeps_stats env w3 id id l3 Hwf3 Hl3) as (l4 & Hl4 & Hs4).
  set (w4 := attachToParentLocation env w3 id) in Hon, Hl4.
  unfold subscribe, fresh in Hon. cbv beta iota zeta in Hon. cbn [heap] in Hon.
  rewrite Hl4 in Hon.
  rewrite (modify_loc_some _ id _ (set_hub (app (l_hub l4) [(next_id w4, LSelf)]) l4)) in Hon
    by apply lookup_insert_eq.
  cbn [res_bind] in Hon. injection Hon as <-.
  eexists _, (next_id w4). split; [cbn [heap upd_loc]; apply lookup_insert_eq |].
  cbn [l_stats l_sub l_hub set_sub set_hub]. split; [| split; [reflexivity |]].
  - rewrite Hs4, Hs3, Hs2. exact Hst.
  - apply in_or_app. right. left. reflexivity.
Qed.

Lemma watch_wf (env : Env) (w : FSW) (q : string) (u : nat) :
  wf w -> wf (fst (watch env w q u)).
Proof.
  intros Hwf. rewrite watch_unfold. cbn [fst].
  destruct (ensureLocation_facts env w q Hwf) as (Hwf1 & _).
  exact (proj1 (subscribe_facts _ (snd (ensureLocation env w q)) (LUser u) Hwf1)).
Qed.

Lemma online_records_stats_and_self_witness :
  wf ex_watched_d /\ heap ex_watched_d !! 0 = Some (loc_at ex_watched_d 0) /\
  online ex_env ex_watched_d 0 = Ok ex_online /\
  exists l' sid, heap ex_online !! 0 = Some l' /\
    l_stats l' = Some ex_dir /\ l_sub l' = Some sid /\ In (sid, LSelf) (l_hub l').
Proof.
  assert (Hwf : wf ex_watched_d) by exact (watch_wf ex_env w0 "/tmp/d" 1 wf_w0).
  assert (Hl : heap ex_watched_d !! 0 = Some (loc_at ex_watched_d 0)) by (vm_compute; reflexivity).
  assert (Hon : online ex_env ex_watched_d 0 = Ok ex_online) by (vm_compute; reflexivity).
  split; [exact Hwf |]. split; [exact Hl |]. split; [exact Hon |].
  exact (online_records_stats_and_self ex_env ex_watched_d ex_online 0 _ Hwf Hl Hon).
Defined.


(* ------------------------------------------------------------------ *)
(** ** Invariants of state-passing code *)

Section StOk.
Variable P : FSW -> Prop.
Variable R : FSW -> FSW -> Prop.
Hypothesis R_refl : forall w, R w w.
Hypothesis R_trans : forall w1 w2 w3, R w1 w2 -> R w2 w3 -> R w1 w3.

Lemma st_ret_ok {A} (a : A) : St_ok P R (st_ret a).
Proof. intros w Hw. split; [exact Hw | apply R_refl]. Qed.

Lemma st_bind_ok {A B} (m : St A) (k : A -> St B) :
  St_ok P R m -> (forall a, St_ok P R (k a)) -> St_ok P R (st_bind m k).
Proof.
  intros Hm Hk w Hw. unfold st_bind.
  destruct (Hm w Hw) as [H1 R1].
  destruct (m w) as [[a | e] w1]; cbn [snd] in *.
  - destruct (Hk a w1 H1) as [H2 R2]. split; [exact H2 | eapply R_trans; eauto].
  - split; assumption.
Qed.

Lemma st_get_ok (id : nat) : St_ok P R (st_get id).
Proof. intros w Hw. split; [exact Hw | apply R_refl]. Qed.

Lemma st_res_ok {A} (r : Res A) : St_ok P R (st_res r).
Proof. intros w Hw. unfold st_res. destruct r; split; auto. Qed.

Lemma st_upd_ok (f : FSW -> FSW) :
  (forall w, P w -> P (f w) /\ R w (f w)) -> St_ok P R (st_upd f).
Proof. intros H w Hw. exact (H w Hw). Qed.

Lemma st_try_ok (f : FSW -> Res FSW) :
  (forall w w', P w -> f w = Ok w' -> P w' /\ R w w') -> St_ok P R (st_try f).
Proof.
  intros H w Hw. unfold st_try. destruct (f w) as [w' | e] eqn:E; cbn [snd].
  - exact (H w w' Hw E).
  - split; auto.
Qed.

Lemma st_fresh_ok :
  (forall w, P w -> P (fst (fresh w)) /\ R w (fst (fresh w))) -> St_ok P R st_fresh.
Proof. intros H w Hw. exact (H w Hw). Qed.

Lemma st_subscribe_ok (id : nat) (ls : Listener) :
  (forall w, P w -> P (fst (subscribe w id ls)) /\ R w (fst (subscribe w id ls))) ->
  St_ok P R (st_subscribe id ls).
Proof. intros H w Hw. exact (H w Hw). Qed.

Lemma st_modify_loc_ok (id : nat) (f : Loc -> Loc) :
  (forall w l, P w -> heap w !! id = Some l -> P (upd_loc id (f l) w) /\ R w (upd_loc id (f l) w)) ->
  St_ok P R (st_modify_loc id f).
Proof.
  intros H w Hw. unfold st_modify_loc, st_upd. cbn [snd].
  destruct (heap w !! id) eqn:E; [exact (H w l Hw E) | split; auto].
Qed.

Lemma st_ensure_ok (env : Env) (p : string) :
  (forall w, P w -> P (fst (ensureLocation env w p)) /\ R w (fst (ensureLocation env w p))) ->
  St_ok P R (st_ensure env p).
Proof. intros H w Hw. exact (H w Hw). Qed.

Lemma subscribe_d_ok (online_ : nat -> St unit) (id : nat) (ls : Listener) :
  St_ok P R (st_subscribe id ls) -> St_ok P R (online_ id) ->
  St_ok P R (subscribe_d online_ id ls).
Proof.
  intros Hs Ho. unfold subscribe_d.
  apply st_bind_ok; [apply st_get_ok | intros ol].
  apply st_bind_ok; [exact Hs | intros sid].
  apply st_bind_ok; [| intros _; apply st_ret_ok].
  destruct ol as [l |]; [| apply st_ret_ok].
  destruct (negb (has_demand l) && is_demand (sid, ls)); [exact Ho | apply st_ret_ok].
Qed.
End StOk.

(** A fact that every step keeps can be added to the invariant. *)
Lemma St_ok_conj {A} (P K : FSW -> Prop) (R : FSW -> FSW -> Prop) (m : St A) :
  (forall w, P w -> K w -> P (snd (m w)) /\ R w (snd (m w))) ->
  (forall w w', K w -> R w w' -> K w') ->
  St_ok (fun w => P w /\ K w) R m.
Proof.
  intros H HK w [Hp Hk]. destruct (H w Hp Hk) as [A1 B1]. split; [split; [exact A1 | eauto] | exact B1].
Qed.

Lemma St_ok_weaken {A} (P1 P2 : FSW -> Prop) (R : FSW -> FSW -> Prop) (m : St A) :
  (forall w, P2 w -> P1 w) -> (forall w w', P2 w -> R w w' -> P1 w' -> P2 w') ->
  St_ok P1 R m -> St_ok P2 R m.
Proof.
  intros H12 H21 Hm w Hw. destruct (Hm w (H12 w Hw)) as [A1 B1]. split; [eauto | exact B1].
Qed.

(** The steps of [online] and of the attachment to the parent keep an
    invariant [P] and a relation [R] to the state before; [online] may
    be run on the identities [Qo] holds of, the attachment goes to those
    [Qa] holds of. *)
Section Demand.
Variable env : Env.
Variable P : FSW -> Prop.
Variable R : FSW -> FSW -> Prop.
Hypothesis R_refl : forall w, R w w.
Hypothesis R_trans : forall w1 w2 w3, R w1 w2 -> R w2 w3 -> R w1 w3.
Variables Qo Qa : nat -> FSW -> Prop.
Hypothesis Qo_R : forall j w w', Qo j w -> R w w' -> Qo j w'.
Hypothesis Qa_R : forall j w w', Qa j w -> R w w' -> Qa j w'.
Hypothesis Qa_Qo : forall j w, Qa j w -> Qo j w.

Hypothesis fresh_ok : forall w, P w -> P (fst (fresh w)) /\ R w (fst (fresh w)).
Hypothesis children_ok : forall t (c : Loc -> option (list (string * nat)))
    (a : Loc -> option ChildrenAgg) w l,
  P w -> Qa t w -> heap w !! t = Some l ->
  P (upd_loc t (set_children (c l) (a l) l) w) /\ R w (upd_loc t (set_children (c l) (a l) l) w).
Hypothesis forward_ok : forall t w, P w -> Qa t w ->
  P (fst (subscribe w t LForward)) /\ R w (fst (subscribe w t LForward)).
Hypothesis init_ok : forall j l st w, P w -> Qo j w -> heap w !! j = Some l ->
  getStats env (l_path l) = Ok st ->
  P (upd_loc j (set_stats st l) w) /\ R w (upd_loc j (set_stats st l) w) /\
  forall w2, modify_loc (upd_loc j (set_stats st l) w) j (initializeEntries env) = Ok w2 ->
    P w2 /\ R (upd_loc j (set_stats st l) w) w2 /\
    forall w3, initializeWatcher env w2 j = Ok w3 -> P w3 /\ R w2 w3.
Hypothesis wp_ok : forall j sig w l, P w -> Qo j w -> heap w !! j = Some l ->
  P (upd_loc j (set_watchingParent (Some sig) l) w) /\
  R w (upd_loc j (set_watchingParent (Some sig) l) w).
Hypothesis parent_ok : forall j w l, P w -> Qo j w -> heap w !! j = Some l ->
  l_shouldWatchParent l = true ->
  P (fst (ensureLocation env w (l_parentPath l))) /\
  R w (fst (ensureLocation env w (l_parentPath l))) /\
  Qa (snd (ensureLocation env w (l_parentPath l))) (fst (ensureLocation env w (l_parentPath l))).
Hypothesis self_ok : forall j w, P w -> Qo j w ->
  P (fst (subscribe w j LSelf)) /\ R w (fst (subscribe w j LSelf)).
Hypothesis setsub_ok : forall j s w l, P w -> Qo j w -> heap w !! j = Some l ->
  P (upd_loc j (set_sub s l) w) /\ R w (upd_loc j (set_sub s l) w).

Lemma children_modify_ok t (c : Loc -> option (list (string * nat))) (a : Loc -> option ChildrenAgg) :
  St_ok (fun w => P w /\ Qa t w) R (st_modify_loc t (fun l => set_children (c l) (a l) l)).
Proof.
  apply St_ok_conj; [| exact (Qa_R t)].
  intros w Hp Hq. unfold st_modify_loc, st_upd. cbn [snd].
  destruct (heap w !! t) as [l |] eqn:Hl; [exact (children_ok t c a w l Hp Hq Hl) | split; auto].
Qed.

Lemma attachChild_d_ok (online_ : nat -> St unit) :
  (forall t, St_ok (fun w => P w /\ Qa t w) R (online_ t)) ->
  forall t cid cpath sig, St_ok (fun w => P w /\ Qa t w) R (attachChild_d online_ t cid cpath sig).
Proof.
  intros Hon t cid cpath sig. unfold attachChild_d.
  apply st_bind_ok; [exact R_trans | apply st_get_ok; exact R_refl |].
  intros [p |]; [| apply st_ret_ok; exact R_refl].
  apply st_bind_ok; [exact R_trans | apply children_modify_ok | intros _].
  apply st_bind_ok; [exact R_trans | | intros ca; apply children_modify_ok].
  destruct (l_childrenAbortController p) as [ca |]; [apply st_ret_ok; exact R_refl |].
  apply st_bind_ok; [exact R_trans | | intros sub].
  - apply subscribe_d_ok; [exact R_refl | exact R_trans | | exact (Hon t)].
    apply st_subscribe_ok. intros w [Hp Hq]. destruct (forward_ok t w Hp Hq) as [A B].
    split; [split; [exact A | exact (Qa_R t _ _ Hq B)] | exact B].
  - apply st_bind_ok; [exact R_trans | | intros aid].
    + apply st_fresh_ok. intros w [Hp Hq]. destruct (fresh_ok w Hp) as [A B].
      split; [split; [exact A | exact (Qa_R t _ _ Hq B)] | exact B].
    + apply st_bind_ok; [exact R_trans | apply children_modify_ok |].
      intros _. apply st_ret_ok; exact R_refl.
Qed.

Lemma attachToParentLocation_d_ok (online_ : nat -> St unit) :
  (forall t, St_ok (fun w => P w /\ Qa t w) R (online_ t)) ->
  forall j, St_ok (fun w => P w /\ Qo j w) R (attachToParentLocation_d online_ env j).
Proof.
  intros Hon j w [Hp Hq]. unfold attachToParentLocation_d, st_bind, st_get. cbn [fst snd].
  destruct (heap w !! j) as [l |] eqn:Hl; [| split; [split; assumption | apply R_refl]].
  destruct (l_shouldWatchParent l) eqn:Hs; cbn [negb]; [| split; [split; assumption | apply R_refl]].
  unfold st_fresh, st_modify_loc, st_upd, st_ensure. cbn [fst snd].
  destruct (fresh_ok w Hp) as [P1 R1].
  assert (Hl1 : heap (fst (fresh w)) !! j = Some l) by exact Hl.
  rewrite Hl1.
  pose proof (Qo_R j _ _ Hq R1) as Q1.
  destruct (wp_ok j (snd (fresh w)) _ l P1 Q1 Hl1) as [P2 R2].
  set (w2 := upd_loc j (set_watchingParent (Some (snd (fresh w))) l) (fst (fresh w))) in *.
  assert (Hl2 : heap w2 !! j = Some (set_watchingParent (Some (snd (fresh w))) l))
    by (unfold w2, upd_loc; cbn [heap]; apply lookup_insert_eq).
  destruct (parent_ok j w2 _ P2 (Qo_R j _ _ Q1 R2) Hl2 Hs) as (P3 & R3 & Q3).
  cbn [l_parentPath set_watchingParent] in P3, R3, Q3.
  destruct (attachChild_d_ok online_ Hon _ j (l_path l) (snd (fresh w))
              (fst (ensureLocation env w2 (l_parentPath l))) (conj P3 Q3)) as [[P4 _] R4].
  split; [split; [exact P4 |] |].
  - apply (Qo_R j w); [exact Hq |]. eauto.
  - eauto.
Qed.

Lemma online_d_ok (n : nat) : forall j, St_ok (fun w => P w /\ Qo j w) R (online_d n env j).
Proof.
  induction n as [| n IH]; intros j; cbn [online_d]; [apply st_ret_ok; exact R_refl |].
  apply St_ok_conj; [| exact (Qo_R j)]. intros w Hp Hq.
  assert (Htail : St_ok (fun w => P w /\ Qo j w) R
    (let@ _ := attachToParentLocation_d (online_d n env) env j in
     let@ sub := st_subscribe j LSelf in
     st_modify_loc j (set_sub (Some sub)))).
  { apply st_bind_ok; [exact R_trans | |].
    - apply attachToParentLocation_d_ok. intros t.
      apply (St_ok_weaken (fun w => P w /\ Qo t w)); [| | exact (IH t)].
      + intros w' [A B]. split; [exact A | exact (Qa_Qo t w' B)].
      + intros w' w'' [A B] Rw [C _]. split; [exact C | exact (Qa_R t _ _ B Rw)].
    - intros _. apply st_bind_ok; [exact R_trans | |].
      + apply st_subscribe_ok. intros w' [A B]. destruct (self_ok j w' A B) as [C D].
        split; [split; [exact C | exact (Qo_R j _ _ B D)] | exact D].
      + intros sub. apply St_ok_conj; [| exact (Qo_R j)].
        intros w' A B. unfold st_modify_loc, st_upd. cbn [snd].
        destruct (heap w' !! j) as [l' |] eqn:Hl'; [exact (setsub_ok j _ w' l' A B Hl') | split; auto]. }
  match goal with |- P (snd ?m) /\ _ => remember m as r eqn:Er end.
  unfold st_bind at 1, st_get at 1 in Er. cbn [fst snd] in Er.
  destruct (heap w !! j) as [l |] eqn:Hl; [| subst r; split; [exact Hp | apply R_refl]].
  unfold st_bind at 1, st_res at 1 in Er.
  destruct (getStats env (l_path l)) as [st | e] eqn:Hst; [| subst r; split; [exact Hp | apply R_refl]].
  destruct (init_ok j l st w Hp Hq Hl Hst) as (P1 & R1 & H2).
  unfold st_bind at 1, st_modify_loc at 1, st_upd at 1 in Er. cbn [fst snd] in Er. rewrite Hl in Er.
  set (w1 := upd_loc j (set_stats st l) w) in *.
  pose proof (Qo_R j _ _ Hq R1) as Q1.
  unfold st_bind at 1, st_try at 1 in Er.
  destruct (modify_loc w1 j (initializeEntries env)) as [w2 | e] eqn:E2;
    [| subst r; split; [exact P1 | exact R1]].
  destruct (H2 w2 eq_refl) as (P2 & R2 & H3).
  pose proof (Qo_R j _ _ Q1 R2) as Q2.
  unfold st_bind at 1, st_try at 1 in Er.
  destruct (initializeWatcher env w2 j) as [w3 | e] eqn:E3;
    [| subst r; split; [exact P2 | eauto]].
  destruct (H3 w3 eq_refl) as (P3 & R3).
  pose proof (Qo_R j _ _ Q2 R3) as Q3.
  destruct (Htail w3 (conj P3 Q3)) as [[P4 _] R4].
  subst r. split; [exact P4 | eauto].
Qed.
End Demand.

(* ------------------------------------------------------------------ *)
(** ** Same path, same location (demand-driven model) *)

Lemma grows_reg_refl (w : FSW) : grows_reg w w.
Proof. split; [auto | intros i l H; exists l; split; [exact H | apply incl_refl]]. Qed.

Lemma grows_reg_trans (w1 w2 w3 : FSW) : grows_reg w1 w2 -> grows_reg w2 w3 -> grows_reg w1 w3.
Proof.
  intros [A1 B1] [A2 B2]. split; [auto |].
  intros i l H. destruct (B1 i l H) as (l2 & H2 & I2). destruct (B2 i l2 H2) as (l3 & H3 & I3).
  exists l3. split; [exact H3 | eapply incl_tran; eauto].
Qed.

Lemma reg_inv_w0 : reg_inv w0.
Proof.
  unfold reg_inv, w0; cbn [locations heap next_id opened].
  repeat split; intros *; rewrite ?lookup_empty; try discriminate; try (intros; discriminate).
  - constructor.
  - intros [].
Qed.

Lemma reg_wf (w : FSW) : reg_inv w -> wf w.
Proof.
  intros (H1 & _ & H3 & _). split; [| exact H3].
  intros p i Hp. destruct (H1 p i Hp) as (l & Hl & _). eauto.
Qed.

Lemma reg_upd (w : FSW) (id : nat) (l l' : Loc) :
  reg_inv w -> heap w !! id = Some l -> l_path l' = l_path l -> l_watcher l' = l_watcher l ->
  reg_inv (upd_loc id l' w).
Proof.
  intros (H1 & H2 & H3 & H4 & H5 & H6) Hl Hp Hw. unfold upd_loc.
  split; [| split; [| split; [| split; [| split]]]]; cbn [locations heap next_id opened].
  - intros p i Hpi. destruct (H1 p i Hpi) as (l0 & Hl0 & Hp0).
    destruct (decide (i = id)) as [-> | Hne].
    + rewrite lookup_insert_eq. exists l'. split; [reflexivity | congruence].
    + rewrite lookup_insert_ne by congruence. eauto.
  - intros i l0 Hl0. destruct (decide (i = id)) as [-> | Hne].
    + rewrite lookup_insert_eq in Hl0. injection Hl0 as <-. rewrite Hp. exact (H2 _ _ Hl).
    + rewrite lookup_insert_ne in Hl0 by congruence. exact (H2 _ _ Hl0).
  - intros i l0 Hl0. destruct (decide (i = id)) as [-> | Hne].
    + exact (H3 _ _ Hl).
    + rewrite lookup_insert_ne in Hl0 by congruence. exact (H3 _ _ Hl0).
  - exact H4.
  - intros q Hq. destruct (H5 q Hq) as (i & l0 & Hl0 & Hp0 & Hw0).
    destruct (decide (i = id)) as [-> | Hne].
    + exists id, l'. rewrite lookup_insert_eq. rewrite Hl in Hl0. injection Hl0 as <-.
      split; [reflexivity | split; congruence].
    + exists i, l0. rewrite lookup_insert_ne by congruence. auto.
  - intros i l0 Hl0 Hw0. destruct (decide (i = id)) as [-> | Hne].
    + rewrite lookup_insert_eq in Hl0. injection Hl0 as <-. rewrite Hp.
      apply (H6 _ _ Hl). congruence.
    + rewrite lookup_insert_ne in Hl0 by congruence. exact (H6 _ _ Hl0 Hw0).
Qed.

Lemma grows_upd (w : FSW) (id : nat) (l l' : Loc) :
  heap w !! id = Some l -> incl (l_hub l) (l_hub l') -> grows_reg w (upd_loc id l' w).
Proof.
  intros Hl Hi. unfold upd_loc. split; cbn [locations heap]; [auto |].
  intros i l0 Hl0. destruct (decide (i = id)) as [-> | Hne].
  - rewrite lookup_insert_eq. rewrite Hl in Hl0. injection Hl0 as <-. eauto.
  - rewrite lookup_insert_ne by congruence. exists l0. split; [exact Hl0 | apply incl_refl].
Qed.

Lemma reg_fresh (w : FSW) : reg_inv w -> reg_inv (fst (fresh w)) /\ grows_reg w (fst (fresh w)).
Proof.
  intros (H1 & H2 & H3 & H4 & H5 & H6). unfold fresh; cbn [fst locations heap next_id opened].
  split; [| split; [auto | intros i l Hl; exists l; split; [exact Hl | apply incl_refl]]].
  split; [exact H1 |]. split; [exact H2 |]. split; [| auto].
  intros i l Hl. specialize (H3 i l Hl). cbn [next_id]. lia.
Qed.

Lemma reg_ensure (env : Env) (w : FSW) (p : string) :
  reg_inv w -> reg_inv (fst (ensureLocation env w p)) /\ grows_reg w (fst (ensureLocation env w p)).
Proof.
  intros Hr. unfold ensureLocation.
  destruct (locations w !! p) as [j |] eqn:E; cbn [fst]; [split; [exact Hr | apply grows_reg_refl] |].
  destruct Hr as (H1 & H2 & H3 & H4 & H5 & H6).
  assert (Hfresh : heap w !! next_id w = None).
  { destruct (heap w !! next_id w) as [l |] eqn:Hl; [| reflexivity]. specialize (H3 _ _ Hl). lia. }
  assert (Hpo : ~ In p (opened w)).
  { intros Hin. destruct (H5 p Hin) as (i & l & Hl & Hp & _). rewrite <- Hp, (H2 _ _ Hl) in E. discriminate. }
  split; [split; [| split; [| split]] |]; cbn [locations heap next_id opened].
  - intros q i Hq. destruct (decide (q = p)) as [-> | Hne].
    + rewrite lookup_insert_eq in Hq. injection Hq as <-. rewrite lookup_insert_eq. eauto.
    + rewrite lookup_insert_ne in Hq by congruence. destruct (H1 q i Hq) as (l & Hl & Hp).
      exists l. rewrite lookup_insert_ne; [eauto |]. specialize (H3 _ _ Hl). lia.
  - intros i l Hl. destruct (decide (i = next_id w)) as [-> | Hne].
    + rewrite lookup_insert_eq in Hl. injection Hl as <-. cbn. apply lookup_insert_eq.
    + rewrite lookup_insert_ne in Hl by congruence. rewrite lookup_insert_ne; [exact (H2 _ _ Hl) |].
      intros Heq. rewrite Heq, (H2 _ _ Hl) in E. discriminate.
  - intros i l Hl. destruct (decide (i = next_id w)) as [-> | Hne]; [lia |].
    rewrite lookup_insert_ne in Hl by congruence. specialize (H3 _ _ Hl). lia.
  - split; [exact H4 |]. split.
    + intros q Hq. destruct (H5 q Hq) as (i & l & Hl & Hp & Hw). exists i, l.
      rewrite lookup_insert_ne; [eauto |]. specialize (H3 _ _ Hl). lia.
    + intros i l Hl Hw. destruct (decide (i = next_id w)) as [-> | Hne].
      * rewrite lookup_insert_eq in Hl. injection Hl as <-. cbn in Hw. congruence.
      * rewrite lookup_insert_ne in Hl by congruence. exact (H6 _ _ Hl Hw).
  - split; cbn [locations heap].
    + intros q i Hq. rewrite lookup_insert_ne; [exact Hq | congruence].
    + intros i l Hl. exists l. rewrite lookup_insert_ne; [split; [exact Hl | apply incl_refl] |].
      specialize (H3 _ _ Hl). lia.
Qed.

Lemma reg_subscribe (w : FSW) (id : nat) (ls : Listener) :
  reg_inv w -> reg_inv (fst (subscribe w id ls)) /\ grows_reg w (fst (subscribe w id ls)).
Proof.
  intros Hr. destruct (reg_fresh w Hr) as [Hr1 G1].
  unfold subscribe. destruct (fresh w) as [w1 sid] eqn:Ef. cbn [fst] in *.
  destruct (heap w1 !! id) as [l |] eqn:Hl; cbn [fst]; [| split; assumption].
  split.
  - apply (reg_upd w1 id l); auto.
  - eapply grows_reg_trans; [exact G1 |]. apply (grows_upd w1 id l); [exact Hl |].
    cbn. intros x Hx. apply in_or_app. left. exact Hx.
Qed.

Lemma reg_attachChild (w : FSW) (pid cid : nat) (cpath : string) (sig : nat) :
  reg_inv w -> reg_inv (attachChild w pid cid cpath sig) /\ grows_reg w (attachChild w pid cid cpath sig).
Proof.
  intros Hr. unfold attachChild.
  destruct (heap w !! pid) as [p |] eqn:Hp; [| split; [exact Hr | apply grows_reg_refl]].
  destruct (l_childrenAbortController p) as [ca |].
  - split; [apply (reg_upd w pid p); auto | apply (grows_upd w pid p); [exact Hp | apply incl_refl]].
  - destruct (reg_subscribe w pid LForward Hr) as [Hr1 G1].
    destruct (subscribe w pid LForward) as [w1 sub]. cbn [fst] in *.
    destruct (reg_fresh w1 Hr1) as [Hr2 G2].
    destruct (fresh w1) as [w2 aid]. cbn [fst] in *.
    destruct (heap w2 !! pid) as [p2 |] eqn:Hp2; [| split; [exact Hr2 | eapply grows_reg_trans; eauto]].
    split.
    + apply (reg_upd w2 pid p2); auto.
    + eapply grows_reg_trans; [exact G1 |]. eapply grows_reg_trans; [exact G2 |].
      apply (grows_upd w2 pid p2); [exact Hp2 | apply incl_refl].
Qed.

Lemma initializeEntries_fields (env : Env) (l l' : Loc) :
  initializeEntries env l = Ok l' ->
  l_path l' = l_path l /\ l_watcher l' = l_watcher l /\ l_hub l' = l_hub l /\
  l_childrenAbortController l' = l_childrenAbortController l /\
  l_attachedChildren l' = l_attachedChildren l.
Proof.
  unfold initializeEntries. destruct (isFile l || negb (exists_ l)); [intros [= <-]; auto |].
  destruct (env_readdir env (l_path l)); [| discriminate].
  destruct (_ || _); [discriminate |].
  destruct (classifyEntries _ _ _ _). intros [= <-]. auto.
Qed.

Lemma reg_initializeWatcher (env : Env) (w w' : FSW) (id : nat) :
  reg_inv w -> initializeWatcher env w id = Ok w' -> reg_inv w' /\ grows_reg w w'.
Proof.
  intros Hr. unfold initializeWatcher.
  destruct (heap w !! id) as [l |] eqn:Hl; [| intros [= <-]; split; [exact Hr | apply grows_reg_refl]].
  destruct (isFile l); [intros [= <-]; split; [exact Hr | apply grows_reg_refl] |].
  destruct (l_watcher l) eqn:Hw; [discriminate |].
  destruct (env_watch env (l_path l)); [discriminate |].
  unfold fresh. cbv beta iota zeta. intros [= <-].
  destruct Hr as (H1 & H2 & H3 & H4 & H5 & H6).
  assert (Hpo : ~ In (l_path l) (opened w)).
  { intros Hin. destruct (H5 _ Hin) as (i & l0 & Hl0 & Hp0 & Hw0).
    pose proof (H2 _ _ Hl0) as E1. pose proof (H2 _ _ Hl) as E2. rewrite Hp0 in E1.
    rewrite E1 in E2. injection E2 as ->. rewrite Hl in Hl0. injection Hl0 as <-. contradiction. }
  unfold reg_inv, grows_reg, upd_loc. cbn [locations heap next_id opened].
  split; [split; [| split; [| split]] |].
  - intros p i Hpi. destruct (H1 p i Hpi) as (l0 & Hl0 & Hp0).
    destruct (decide (i = id)) as [-> | Hne].
    + rewrite lookup_insert_eq. eexists. split; [reflexivity |]. cbn. rewrite Hl in Hl0. congruence.
    + rewrite lookup_insert_ne by congruence. eauto.
  - intros i l0 Hl0. destruct (decide (i = id)) as [-> | Hne].
    + rewrite lookup_insert_eq in Hl0. injection Hl0 as <-. exact (H2 _ _ Hl).
    + rewrite lookup_insert_ne in Hl0 by congruence. exact (H2 _ _ Hl0).
  - intros i l0 Hl0. destruct (decide (i = id)) as [-> | Hne].
    + specialize (H3 _ _ Hl). lia.
    + rewrite lookup_insert_ne in Hl0 by congruence. specialize (H3 _ _ Hl0). lia.
  - split; [apply List.NoDup_app; [exact H4 | constructor; [intros [] | constructor] |];
            intros x Hx [<- | []]; contradiction |].
    split.
    + intros q Hq. apply in_app_or in Hq as [Hq | [<- | []]].
      * destruct (H5 q Hq) as (i & l0 & Hl0 & Hp0 & Hw0).
        destruct (decide (i = id)) as [-> | Hne].
        -- exists id. rewrite lookup_insert_eq. eexists. split; [reflexivity |].
           rewrite Hl in Hl0. injection Hl0 as <-. split; [exact Hp0 | cbn; discriminate].
        -- exists i, l0. rewrite lookup_insert_ne by congruence. auto.
      * exists id. rewrite lookup_insert_eq. eexists. split; [reflexivity |]. cbn. split; [reflexivity | discriminate].
    + intros i l0 Hl0 Hw0. apply in_or_app. destruct (decide (i = id)) as [-> | Hne].
      * rewrite lookup_insert_eq in Hl0. injection Hl0 as <-. right. left. reflexivity.
      * rewrite lookup_insert_ne in Hl0 by congruence. left. exact (H6 _ _ Hl0 Hw0).
  - split; cbn [locations heap]; [auto |].
    intros i l0 Hl0. destruct (decide (i = id)) as [-> | Hne].
    + rewrite lookup_insert_eq. rewrite Hl in Hl0. injection Hl0 as <-. eexists. split; [reflexivity | apply incl_refl].
    + rewrite lookup_insert_ne by congruence. exists l0. split; [exact Hl0 | apply incl_refl].
Qed.

Lemma online_d_reg (n : nat) (env : Env) (j : nat) : St_ok reg_inv grows_reg (online_d n env j).
Proof.
  apply (St_ok_weaken (fun w => reg_inv w /\ True)); [tauto | tauto |].
  apply (online_d_ok env reg_inv grows_reg grows_reg_refl grows_reg_trans
           (fun _ _ => True) (fun _ _ => True)); auto; clear j.
  - exact reg_fresh.
  - intros t c a w l Hr _ Hl. split; [apply (reg_upd w t l); auto |].
    apply (grows_upd w t l); [exact Hl | apply incl_refl].
  - intros t w Hr _. exact (reg_subscribe w t LForward Hr).
  - intros j l st w Hr _ Hl _.
    assert (Hr1 : reg_inv (upd_loc j (set_stats st l) w)) by (apply (reg_upd w j l); auto).
    split; [exact Hr1 |]. split; [apply (grows_upd w j l); [exact Hl | apply incl_refl] |].
    intros w2 Hm. unfold modify_loc in Hm. unfold upd_loc at 1 in Hm. cbn [heap] in Hm.
    rewrite lookup_insert_eq in Hm.
    destruct (initializeEntries env (set_stats st l)) as [l' |] eqn:Hi; [| discriminate].
    cbn in Hm. injection Hm as <-.
    destruct (initializeEntries_fields env _ l' Hi) as (A & B & C & _).
    assert (Hl1 : heap (upd_loc j (set_stats st l) w) !! j = Some (set_stats st l))
      by (unfold upd_loc; cbn [heap]; apply lookup_insert_eq).
    split; [apply (reg_upd _ j _ l' Hr1 Hl1); auto |].
    split; [apply (grows_upd _ j _ l' Hl1); rewrite C; apply incl_refl |].
    intros w3 Hw. exact (reg_initializeWatcher env _ w3 j (reg_upd _ j _ l' Hr1 Hl1 A B) Hw).
  - intros j sig w l Hr _ Hl. split; [apply (reg_upd w j l); auto |].
    apply (grows_upd w j l); [exact Hl | apply incl_refl].
  - intros j w l Hr _ _ _. destruct (reg_ensure env w (l_parentPath l) Hr). auto.
  - intros j w Hr _. exact (reg_subscribe w j LSelf Hr).
  - intros j s w l Hr _ Hl. split; [apply (reg_upd w j l); auto |].
    apply (grows_upd w j l); [exact Hl | apply incl_refl].
Qed.

Lemma watch_d_reg (n : nat) (env : Env) (p : string) (u : nat) : St_ok reg_inv grows_reg (watch_d n env p u).
Proof.
  unfold watch_d. apply st_bind_ok; [exact grows_reg_trans | |].
  - apply st_ensure_ok. intros w Hr. exact (reg_ensure env w p Hr).
  - intros id. apply st_bind_ok; [exact grows_reg_trans | | intros sub; apply st_ret_ok, grows_reg_refl].
    apply subscribe_d_ok; [exact grows_reg_refl | exact grows_reg_trans | | exact (online_d_reg n env id)].
    apply st_subscribe_ok. intros w Hr. exact (reg_subscribe w id (LUser u) Hr).
Qed.

Lemma watch_seq_reg (n : nat) (env : Env) (ws : list (string * nat)) :
  forall w, reg_inv w -> reg_inv (watch_seq n env ws w) /\ grows_reg w (watch_seq n env ws w).
Proof.
  induction ws as [| [q u] r IH]; intros w Hr; cbn [watch_seq fold_left].
  - split; [exact Hr | apply grows_reg_refl].
  - destruct (watch_d_reg n env q u w Hr) as [Hr1 G1].
    destruct (IH _ Hr1) as [Hr2 G2]. unfold watch_seq in Hr2, G2.
    split; [exact Hr2 | eapply grows_reg_trans; eauto].
Qed.

Lemma watch_d_registered (n : nat) (env : Env) (w : FSW) (p : string) (u i : nat) (l : Loc) :
  locations w !! p = Some i -> heap w !! i = Some l -> has_demand l = true ->
  watch_d n env p u w = (Done (i, snd (subscribe w i (LUser u))), fst (subscribe w i (LUser u))).
Proof.
  intros Hp Hl Hd. unfold watch_d, subscribe_d, st_bind, st_ensure, st_get, st_subscribe, st_ret.
  unfold ensureLocation. rewrite Hp. cbn [fst snd]. rewrite Hl, Hd. cbn [negb andb]. reflexivity.
Qed.

Lemma reg_subscribe_at (w : FSW) (i : nat) (l : Loc) (ls : Listener) :
  heap w !! i = Some l ->
  heap (fst (subscribe w i ls)) !! i = Some (set_hub (l_hub l ++ [(next_id w, ls)]) l) /\
  locations (fst (subscribe w i ls)) = locations w.
Proof.
  intros Hl. unfold subscribe, fresh. cbn [fst snd heap]. rewrite Hl. cbn.
  split; [apply lookup_insert_eq | reflexivity].
Qed.

Lemma ensureLocation_registers (env : Env) (w : FSW) (p : string) :
  locations (fst (ensureLocation env w p)) !! p = Some (snd (ensureLocation env w p)).
Proof.
  unfold ensureLocation. destruct (locations w !! p) eqn:E; [exact E |]. cbn. apply lookup_insert_eq.
Qed.

Lemma watch_d_done (n : nat) (env : Env) (w w' : FSW) (p : string) (u i s : nat) :
  reg_inv w -> watch_d n env p u w = (Done (i, s), w') ->
  locations w' !! p = Some i /\ hub_has w' i (LUser u).
Proof.
  intros Hr Hw. unfold watch_d, subscribe_d, st_bind, st_ensure, st_get, st_subscribe, st_ret in Hw.
  cbn [fst snd] in Hw.
  destruct (reg_ensure env w p Hr) as [Hr1 _].
  pose proof (ensureLocation_registers env w p) as Hreg1.
  set (w1 := fst (ensureLocation env w p)) in *. set (i1 := snd (ensureLocation env w p)) in *.
  destruct (proj1 Hr1 p i1 Hreg1) as (l1 & Hl1 & _).
  destruct (reg_subscribe_at w1 i1 l1 (LUser u) Hl1) as [A B].
  assert (Hin : In (LUser u) (map snd (l_hub (set_hub (l_hub l1 ++ [(next_id w1, LUser u)]) l1))))
    by (cbn; rewrite map_app; apply in_or_app; right; left; reflexivity).
  rewrite Hl1 in Hw.
  destruct (negb (has_demand l1) && is_demand (snd (subscribe w1 i1 (LUser u)), LUser u)).
  - destruct (online_d_reg n env i1 (fst (subscribe w1 i1 (LUser u))) (proj1 (reg_subscribe w1 i1 _ Hr1)))
      as [_ [G1 G2]].
    destruct (online_d n env i1 (fst (subscribe w1 i1 (LUser u)))) as [[[] | e] w3]; [| discriminate].
    injection Hw as <- _ <-. cbn [snd] in G1, G2.
    split; [apply G1; rewrite B; exact Hreg1 |].
    destruct (G2 _ _ A) as (l3 & Hl3 & Hi). exists l3. split; [exact Hl3 |].
    apply in_map_iff in Hin as (e & He & Hin). apply in_map_iff. exists e. split; [exact He | exact (Hi e Hin)].
  - injection Hw as <- _ <-. split; [rewrite B; exact Hreg1 |]. exists (set_hub (l_hub l1 ++ [(next_id w1, LUser u)]) l1).
    split; [exact A | exact Hin].
Qed.

Lemma hub_has_demand (w : FSW) (i : nat) (u : nat) (l : Loc) :
  heap w !! i = Some l -> In (LUser u) (map snd (l_hub l)) -> has_demand l = true.
Proof.
  intros _ Hin. unfold has_demand. apply existsb_exists.
  apply in_map_iff in Hin as (e & He & Hin). exists e. split; [exact Hin |]. unfold is_demand. rewrite He. reflexivity.
Qed.

Lemma hub_has_grows (w w' : FSW) (i : nat) (x : Listener) :
  grows_reg w w' -> hub_has w i x -> hub_has w' i x.
Proof.
  intros [_ G] (l & Hl & Hin). destruct (G i l Hl) as (l' & Hl' & Hi).
  exists l'. split; [exact Hl' |].
  apply in_map_iff in Hin as (y & <- & Hy). apply in_map. exact (Hi y Hy).
Qed.

(** C3 (amended): two [watch] calls with the same path, with any [watch]
    calls before and between them and no subscription cancelled, return the
    same location; the registry maps the path to it and no other location
    has that path; no path has had [FS.watch] called on it twice; both
    callers' listeners are on its hub and every signal on it that completes
    reaches both. *)
Theorem watch_same_path_same_location (n : nat) (env : Env) (ws1 ws2 : list (string * nat))
    (path : string) (u1 u2 id1 s1 : nat) (w1 : FSW)
    (H1 : watch_d n env path u1 (watch_seq n env ws1 w0) = (Done (id1, s1), w1)) :
  let r2 := watch_d n env path u2 (watch_seq n env ws2 w1) in
  (exists s2, fst r2 = Done (id1, s2)) /\
  locations (snd r2) !! path = Some id1 /\
  (forall i l, heap (snd r2) !! i = Some l -> l_path l = path -> i = id1) /\
  List.NoDup (opened (snd r2)) /\
  hub_has (snd r2) id1 (LUser u1) /\ hub_has (snd r2) id1 (LUser u2) /\
  (forall fuel ev p st w4, signal (S fuel) env (snd r2) id1 ev p st = Ok w4 ->
     In (u1, ev, p) (delivered w4) /\ In (u2, ev, p) (delivered w4)).
Proof.
  destruct (watch_seq_reg n env ws1 w0 reg_inv_w0) as [Hr0 _].
  destruct (watch_d_reg n env path u1 _ Hr0) as [Hr1 _]. rewrite H1 in Hr1. cbn [snd] in Hr1.
  destruct (watch_d_done n env _ _ path u1 id1 s1 Hr0 H1) as [Hp1 Hh1].
  destruct (watch_seq_reg n env ws2 w1 Hr1) as [Hr2 G2].
  set (w2 := watch_seq n env ws2 w1) in *.
  assert (Hp2 : locations w2 !! path = Some id1) by exact (proj1 G2 _ _ Hp1).
  pose proof (hub_has_grows _ _ _ _ G2 Hh1) as (l2 & Hl2 & Hin2).
  rewrite (watch_d_registered n env w2 path u2 id1 l2 Hp2 Hl2 (hub_has_demand w2 id1 u1 l2 Hl2 Hin2)).
  cbn [fst snd].
  destruct (reg_subscribe w2 id1 (LUser u2) Hr2) as [Hr3 _].
  destruct (reg_subscribe_at w2 id1 l2 (LUser u2) Hl2) as [A B].
  set (w3 := fst (subscribe w2 id1 (LUser u2))) in *.
  assert (Hu1 : In (LUser u1) (map snd (l_hub (set_hub (l_hub l2 ++ [(next_id w2, LUser u2)]) l2))))
    by (cbn; rewrite map_app; apply in_or_app; left; exact Hin2).
  assert (Hu2 : In (LUser u2) (map snd (l_hub (set_hub (l_hub l2 ++ [(next_id w2, LUser u2)]) l2))))
    by (cbn; rewrite map_app; apply in_or_app; right; left; reflexivity).
  split; [eauto |].
  split; [rewrite B; exact Hp2 |].
  split.
  { intros i l Hl Hp. destruct Hr3 as (_ & H2 & _). specialize (H2 i l Hl). rewrite Hp, B, Hp2 in H2.
    congruence. }
  split; [exact (proj1 (proj2 (proj2 (proj2 Hr3)))) |].
  split; [eexists; split; [exact A | exact Hu1] |].
  split; [eexists; split; [exact A | exact Hu2] |].
  intros fuel ev p st w4 Hs. split.
  - exact (signal_reaches fuel env w3 w4 id1 u1 _ ev p st A Hu1 Hs).
  - exact (signal_reaches fuel env w3 w4 id1 u2 _ ev p st A Hu2 Hs).
Qed.

(** C3 fails as stated: the caller of [watch('/tmp')] cancels, which drops
    the last demand on [/tmp]; [offline()] removes it from the registry,
    and a second [watch('/tmp')] gets a new location, which calls
    [FS.watch('/tmp')] a second time. *)
Lemma watch_after_cancel_new_location :
  match watch_d 4 ex_env "/tmp" 1 w0 with
  | (Done (id1, sub1), w1) =>
      match watch_d 4 ex_env "/tmp" 2 (snd (dispose_d 4 id1 sub1 w1)) with
      | (Done (id2, _), w2) => id2 <> id1 /\ opened w2 = ["/tmp"; "/tmp"]
      | (Raise _, _) => False end
  | (Raise _, _) => False end.
Proof. vm_compute. split; [discriminate | reflexivity]. Qed.

(** [/tmp/d] watched by listener 1, then [/tmp/d/a.txt] by 3, then [/tmp/d]
    by 2: location 0 serves both. *)
Lemma watch_same_path_same_location_witness :
  let r2 := watch_d 4 ex_env "/tmp/d" 2 (watch_seq 4 ex_env [("/tmp/d/a.txt", 3)] (snd (watch_d 4 ex_env "/tmp/d" 1 w0))) in
  (exists s2, fst r2 = Done (0, s2)) /\ locations (snd r2) !! "/tmp/d" = Some 0 /\
  (forall i l, heap (snd r2) !! i = Some l -> l_path l = "/tmp/d" -> i = 0) /\
  List.NoDup (opened (snd r2)) /\
  hub_has (snd r2) 0 (LUser 1) /\ hub_has (snd r2) 0 (LUser 2) /\
  (forall fuel ev p st w4, signal (S fuel) ex_env (snd r2) 0 ev p st = Ok w4 ->
     In (1, ev, p) (delivered w4) /\ In (2, ev, p) (delivered w4)).
Proof.
  assert (H : watch_d 4 ex_env "/tmp/d" 1 (watch_seq 4 ex_env [] w0) =
              (Done (0, 1), snd (watch_d 4 ex_env "/tmp/d" 1 w0))) by (vm_compute; reflexivity).
  exact (watch_same_path_same_location 4 ex_env [] [("/tmp/d/a.txt", 3)] "/tmp/d" 1 2 0 1
           (snd (watch_d 4 ex_env "/tmp/d" 1 w0)) H).
Defined.

(* ------------------------------------------------------------------ *)
(** ** Watch handles opened while bringing a location online *)

Lemma handle_step_refl env id0 w : handle_step env id0 w w.
Proof.
  split; [exists []; rewrite app_nil_r; split; [reflexivity | constructor] |].
  intros l Hl. exists l. auto.
Qed.

Lemma handle_step_trans env id0 w1 w2 w3 :
  handle_step env id0 w1 w2 -> handle_step env id0 w2 w3 -> handle_step env id0 w1 w3.
Proof.
  intros [(s1 & O1 & F1) H1] [(s2 & O2 & F2) H2]. split.
  - exists (app s1 s2). rewrite O2, O1, app_assoc. split; [reflexivity | apply Forall_app; auto].
  - intros l Hl. destruct (H1 l Hl) as (l2 & Hl2 & P2 & W2). destruct (H2 l2 Hl2) as (l3 & Hl3 & P3 & W3).
    exists l3. split; [exact Hl3 |]. split; [congruence |].
    destruct W2 as [W2 | [W2 M2]]; destruct W3 as [W3 | [W3 M3]].
    + left. congruence.
    + right. rewrite P2 in M3. split; [congruence | exact M3].
    + right. auto.
    + right. auto.
Qed.

(** Updating a location in place, keeping its path and its handle. *)
Lemma handle_upd env id0 w t l l' :
  ids_below w -> heap w !! t = Some l -> l_path l' = l_path l -> l_watcher l' = l_watcher l ->
  ids_below (upd_loc t l' w) /\ handle_step env id0 w (upd_loc t l' w).
Proof.
  intros Hb Ht Hp Hw. split.
  - intros i l0. unfold upd_loc; cbn [heap next_id]. destruct (decide (i = t)) as [-> | Hne].
    + intros _. exact (Hb _ _ Ht).
    + rewrite lookup_insert_ne by congruence. apply Hb.
  - split; [exists []; rewrite app_nil_r; split; [reflexivity | constructor] |].
    intros l0 Hl0. unfold upd_loc; cbn [heap]. destruct (decide (id0 = t)) as [-> | Hne].
    + rewrite lookup_insert_eq. rewrite Ht in Hl0. injection Hl0 as <-. exists l'. auto.
    + rewrite lookup_insert_ne by congruence. exists l0. auto.
Qed.

Lemma handle_fresh env id0 w :
  ids_below w -> ids_below (fst (fresh w)) /\ handle_step env id0 w (fst (fresh w)).
Proof.
  intros Hb. split.
  - intros i l Hl. specialize (Hb i l Hl). cbn. lia.
  - split; [exists []; rewrite app_nil_r; split; [reflexivity | constructor] |].
    intros l Hl. exists l. auto.
Qed.

Lemma handle_subscribe env id0 w t ls :
  ids_below w -> ids_below (fst (subscribe w t ls)) /\ handle_step env id0 w (fst (subscribe w t ls)).
Proof.
  intros Hb. destruct (handle_fresh env id0 w Hb) as [B1 S1].
  unfold subscribe. destruct (fresh w) as [w1 sid] eqn:Ef. cbn [fst] in *.
  destruct (heap w1 !! t) as [l |] eqn:Hl; cbn [fst]; [| split; assumption].
  destruct (handle_upd env id0 w1 t l (set_hub (app (l_hub l) [(sid, ls)]) l) B1 Hl eq_refl eq_refl) as [B2 S2].
  split; [exact B2 | eapply handle_step_trans; eauto].
Qed.

Lemma handle_ensure env id0 w p :
  ids_below w -> ids_below (fst (ensureLocation env w p)) /\
  handle_step env id0 w (fst (ensureLocation env w p)).
Proof.
  intros Hb. unfold ensureLocation.
  destruct (locations w !! p) as [j |]; cbn [fst]; [split; [exact Hb | apply handle_step_refl] |].
  split.
  - intros i l. cbn [heap next_id]. destruct (decide (i = next_id w)) as [-> | Hne]; [lia |].
    rewrite lookup_insert_ne by congruence. intros Hl. specialize (Hb _ _ Hl). lia.
  - split; [exists []; rewrite app_nil_r; split; [reflexivity | constructor] |].
    intros l Hl. exists l. cbn [heap]. rewrite lookup_insert_ne; [auto |].
    specialize (Hb _ _ Hl). lia.
Qed.

(** The kind test of [initializeWatcher] after a successful [initializeEntries]. *)
Lemma watch_kind env st l l' :
  readdir_dirs_only env -> getStats env (l_path l) = Ok st ->
  initializeEntries env (set_stats st l) = Ok l' -> isFile l' = false -> may_watch env (l_path l).
Proof.
  intros Hrd Hg Hi Hf. destruct (initializeEntries_stats_path env _ _ Hi) as [Es _].
  cbn [l_stats set_stats] in Es. unfold isFile in Hf. rewrite Es in Hf.
  destruct st as [s |]; [| left; exact Hg]. right. exists s. split; [exact Hg |].
  unfold isFileStats in Hf. destruct (st_kind s) eqn:Hk; [discriminate | reflexivity |].
  destruct (initializeEntries_readdir env _ _ Hi) as [es Hes]; [reflexivity | unfold isFile, isFileStats; cbn; rewrite Hk; reflexivity |].
  cbn [l_path set_stats] in Hes. destruct (Hrd _ _ Hes) as (s' & Hs' & Hk').
  pose proof (getStats_ok env _ _ Hg) as Hs. cbn in Hs. rewrite Hs in Hs'. injection Hs' as <-. congruence.
Qed.

Lemma online_d_handle (n : nat) (env : Env) (id0 j : nat) :
  readdir_dirs_only env -> St_ok ids_below (handle_step env id0) (online_d n env j).
Proof.
  intros Hrd.
  apply (St_ok_weaken (fun w => ids_below w /\ True)); [tauto | tauto |].
  apply (online_d_ok env ids_below (handle_step env id0) (handle_step_refl env id0) (handle_step_trans env id0)
           (fun _ _ => True) (fun _ _ => True)); auto; clear j.
  - exact (handle_fresh env id0).
  - intros t c a w l Hb _ Hl. exact (handle_upd env id0 w t l (set_children (c l) (a l) l) Hb Hl eq_refl eq_refl).
  - intros t w Hb _. exact (handle_subscribe env id0 w t LForward Hb).
  - intros j l st w Hb _ Hl Hst.
    destruct (handle_upd env id0 w j l (set_stats st l) Hb Hl eq_refl eq_refl) as [B1 S1].
    split; [exact B1 |]. split; [exact S1 |].
    intros w2 Hm. unfold modify_loc in Hm. unfold upd_loc at 1 in Hm. cbn [heap] in Hm.
    rewrite lookup_insert_eq in Hm.
    destruct (initializeEntries env (set_stats st l)) as [l' |] eqn:Hi; [| discriminate].
    cbn in Hm. injection Hm as <-.
    destruct (initializeEntries_fields env _ l' Hi) as (A & B & _).
    assert (Hl1 : heap (upd_loc j (set_stats st l) w) !! j = Some (set_stats st l))
      by (unfold upd_loc; cbn [heap]; apply lookup_insert_eq).
    destruct (handle_upd env id0 _ j _ l' B1 Hl1 A B) as [B2 S2].
    split; [exact B2 |]. split; [exact S2 |].
    intros w3 Hw. set (w2 := upd_loc j l' (upd_loc j (set_stats st l) w)) in *.
    assert (Hl2 : heap w2 !! j = Some l') by (unfold w2, upd_loc; cbn [heap]; apply lookup_insert_eq).
    revert Hw. unfold initializeWatcher. rewrite Hl2.
    destruct (isFile l') eqn:Hf; [intros [= <-]; split; [exact B2 | apply handle_step_refl] |].
    destruct (l_watcher l') eqn:Hw'; [discriminate |].
    destruct (env_watch env (l_path l')); [discriminate |].
    unfold fresh. cbv beta iota zeta. intros [= <-].
    pose proof (watch_kind env st l l' Hrd Hst Hi Hf) as Hmw.
    split.
    + intros i l0. unfold upd_loc; cbn [heap next_id]. destruct (decide (i = j)) as [-> | Hne].
      * intros _. specialize (B2 _ _ Hl2). unfold w2, upd_loc in B2 |- *. cbn in B2 |- *. lia.
      * rewrite lookup_insert_ne by congruence. intros H0. specialize (B2 _ _ H0). unfold w2, upd_loc in B2 |- *. cbn in B2 |- *. lia.
    + split.
      * exists [l_path l']. cbn [opened upd_loc]. split; [reflexivity |].
        constructor; [| constructor]. rewrite A. exact Hmw.
      * intros l0 Hl0. unfold upd_loc; cbn [heap]. destruct (decide (id0 = j)) as [-> | Hne].
        -- rewrite lookup_insert_eq. rewrite Hl2 in Hl0. injection Hl0 as <-.
           eexists. split; [reflexivity |]. cbn [l_path set_watcher l_watcher]. split; [reflexivity |].
           right. split; [exact Hw' | rewrite A; exact Hmw].
        -- rewrite lookup_insert_ne by congruence. exists l0. auto.
  - intros j sig w l Hb _ Hl. exact (handle_upd env id0 w j l (set_watchingParent (Some sig) l) Hb Hl eq_refl eq_refl).
  - intros j w l Hb _ _ _. destruct (handle_ensure env id0 w (l_parentPath l) Hb). auto.
  - intros j w Hb _. exact (handle_subscribe env id0 w j LSelf Hb).
  - intros j s w l Hb _ Hl. exact (handle_upd env id0 w j l (set_sub s l) Hb Hl eq_refl eq_refl).
Qed.

(** C7 (amended): bringing a location online, with the parents brought
    online with it, calls [FS.watch] only on paths whose stat is not a
    regular file, and leaves the handle of every location whose stat is a
    regular file as it was; a location's handle changes only from none, and
    only when its stat reports ENOENT or a directory (for an OS whose
    [readdirSync] succeeds only on directories). *)
Theorem online_own_handle_kind (n : nat) (env : Env) (w : FSW) (j id0 : nat)
    (Hrd : readdir_dirs_only env) (Hb : ids_below w) :
  let w' := snd (online_d n env j w) in
  (exists sfx, opened w' = app (opened w) sfx /\
     forall q s, In q sfx -> getStats env q = Ok (Some s) -> st_kind s = KDir) /\
  (forall l, heap w !! id0 = Some l -> exists l', heap w' !! id0 = Some l' /\
     ((exists s, getStats env (l_path l) = Ok (Some s) /\ st_kind s = KFile) -> l_watcher l' = l_watcher l) /\
     (l_watcher l' <> l_watcher l -> l_watcher l = None /\
        (getStats env (l_path l) = Ok None \/
         exists s, getStats env (l_path l) = Ok (Some s) /\ st_kind s = KDir))).
Proof.
  destruct (online_d_handle n env id0 j Hrd w Hb) as [_ [(sfx & Ho & Hf) Hh]]. cbv zeta. split.
  - exists sfx. split; [exact Ho |]. intros q s Hq Hg.
    rewrite List.Forall_forall in Hf. destruct (Hf q Hq) as [Hn | (s' & Hs' & Hk)]; congruence.
  - intros l Hl. destruct (Hh l Hl) as (l' & Hl' & _ & [Hw | [Hw Hm]]).
    + exists l'. split; [exact Hl' |]. split; [auto | intros Hne; contradiction].
    + exists l'. split; [exact Hl' |]. split.
      * intros (s & Hs & Hk). exfalso. destruct Hm as [Hn | (s' & Hs' & Hk')]; [congruence |].
        rewrite Hs in Hs'. injection Hs' as <-. congruence.
      * intros _. split; [exact Hw | exact Hm].
Qed.

(** C7 fails as stated: bringing the file location [/tmp/d/a.txt] online
    opens native watch handles, on its parent [/tmp/d] and on [/tmp],
    which it brings online to attach to. *)
Lemma online_file_opens_parent_handles :
  let w := fst (ensureLocation ex_env w0 "/tmp/d/a.txt") in
  getStats ex_env "/tmp/d/a.txt" = Ok (Some ex_file) /\ st_kind ex_file = KFile /\
  opened w = [] /\
  fst (online_d 4 ex_env 0 w) = Done tt /\
  opened (snd (online_d 4 ex_env 0 w)) = ["/tmp/d"; "/tmp"].
Proof. vm_compute. repeat split. Qed.

Lemma ids_below_w0 : ids_below w0.
Proof. intros i l H. unfold w0 in H. cbn [heap] in H. rewrite lookup_empty in H. discriminate. Qed.

(** The file location [/tmp/d/a.txt] brought online from a fresh watcher. *)
Lemma online_own_handle_kind_witness :
  readdir_dirs_only ex_env /\ ids_below (fst (ensureLocation ex_env w0 "/tmp/d/a.txt")) /\
  let w := fst (ensureLocation ex_env w0 "/tmp/d/a.txt") in
  let w' := snd (online_d 4 ex_env 0 w) in
  (exists sfx, opened w' = app (opened w) sfx /\
     forall q s, In q sfx -> getStats ex_env q = Ok (Some s) -> st_kind s = KDir) /\
  (forall l, heap w !! 0 = Some l -> exists l', heap w' !! 0 = Some l' /\
     ((exists s, getStats ex_env (l_path l) = Ok (Some s) /\ st_kind s = KFile) -> l_watcher l' = l_watcher l) /\
     (l_watcher l' <> l_watcher l -> l_watcher l = None /\
        (getStats ex_env (l_path l) = Ok None \/
         exists s, getStats ex_env (l_path l) = Ok (Some s) /\ st_kind s = KDir))).
Proof.
  assert (Hb : ids_below (fst (ensureLocation ex_env w0 "/tmp/d/a.txt")))
    by exact (proj1 (handle_ensure ex_env 0 w0 "/tmp/d/a.txt" ids_below_w0)).
  split; [exact ex_env_readdir_dirs_only |]. split; [exact Hb |].
  exact (online_own_handle_kind 4 ex_env _ 0 0 ex_env_readdir_dirs_only Hb).
Defined.

(* ------------------------------------------------------------------ *)
(** ** Parents of absolute paths *)

Lemma dirname_scan_length (b : bool) (rcs r : list Ascii.ascii) :
  Path.dirname_scan b rcs = Some r ->
  length r + 1 <= length rcs /\ (b = true -> length r + 2 <= length rcs).
Proof.
  revert b. induction rcs as [| c rcs IH]; intros b H; cbn [Path.dirname_scan] in H; [discriminate |].
  cbn [length].
  destruct (Ascii.eqb c Path.slash).
  - destruct b.
    + destruct (IH true H) as [A B]. split; [lia | intros _; specialize (B eq_refl); lia].
    + injection H as <-. split; [lia | discriminate].
  - destruct (IH false H) as [A _]. split; [lia | intros _; lia].
Qed.

Lemma length_string_of_list_ascii (cs : list Ascii.ascii) :
  String.length (string_of_list_ascii cs) = length cs.
Proof. induction cs as [| c cs IH]; cbn; [reflexivity | rewrite IH; reflexivity]. Qed.

Lemma length_list_ascii_of_string (s : string) :
  length (list_ascii_of_string s) = String.length s.
Proof. induction s as [| c s IH]; cbn; [reflexivity | rewrite IH; reflexivity]. Qed.

Lemma dirname_abs (p : string) :
  is_abs p = true -> Path.dirname p <> "/"%string ->
  is_abs (Path.dirname p) = true /\ String.length (Path.dirname p) < String.length p.
Proof.
  destruct p as [| c s]; [discriminate |]. cbn [is_abs]. intros Hc.
  unfold Path.dirname. cbn [list_ascii_of_string]. rewrite Hc.
  destruct (Path.dirname_scan true (rev (list_ascii_of_string s))) as [r |] eqn:E; [| intros H; contradiction].
  intros _. destruct (dirname_scan_length true _ r E) as [_ B]. specialize (B eq_refl).
  rewrite length_rev, length_list_ascii_of_string in B.
  destruct r as [| x r]; cbn [andb].
  - split; [reflexivity | cbn; lia].
  - cbn [string_of_list_ascii is_abs String.length]. rewrite Hc. split; [reflexivity |].
    rewrite length_string_of_list_ascii, length_rev. cbn [length] in B |- *. lia.
Qed.

(* ------------------------------------------------------------------ *)
(** ** The dispose / offline cascade only removes *)

Lemma shrinks_refl (w : FSW) : shrinks w w.
Proof.
  split; [reflexivity |]. split; [auto |]. split; [intros i l' H; rewrite H; eauto |].
  intros i l H. exists l. split; [exact H |]. split; [split; auto | split; [apply incl_refl | auto]].
Qed.

Lemma shrinks_trans (w1 w2 w3 : FSW) : shrinks w1 w2 -> shrinks w2 w3 -> shrinks w1 w3.
Proof.
  intros (N1 & L1 & D1 & H1) (N2 & L2 & D2 & H2).
  split; [congruence |]. split; [auto |].
  split; [intros i l' H; destruct (D2 i l' H) as [l2 E2]; exact (D1 i l2 E2) |].
  intros i l H. destruct (H1 i l H) as (l2 & E2 & (P2 & Q2 & S2) & I2 & A2 & C2).
  destruct (H2 i l2 E2) as (l3 & E3 & (P3 & Q3 & S3) & I3 & A3 & C3).
  exists l3. split; [exact E3 |]. split; [split; [congruence | split; congruence] |].
  split; [eapply incl_tran; eauto | split; auto].
Qed.

Lemma shrinks_upd (w : FSW) (t : nat) (l l' : Loc) :
  heap w !! t = Some l -> same_frame l l' -> incl (l_hub l') (l_hub l) ->
  (l_childrenAbortController l = None -> l_childrenAbortController l' = None) ->
  (l_attachedChildren l = None -> l_attachedChildren l' = None) ->
  shrinks w (upd_loc t l' w).
Proof.
  intros Ht F I A C. unfold upd_loc. split; [reflexivity |]. split; [cbn; auto |]. cbn [heap].
  split.
  - intros i l0. destruct (decide (i = t)) as [-> | Hne]; [rewrite Ht; eauto |].
    rewrite lookup_insert_ne by congruence. intros H; rewrite H; eauto.
  - intros i l0 H. destruct (decide (i = t)) as [-> | Hne].
    + rewrite lookup_insert_eq. rewrite Ht in H. injection H as <-. exists l'. auto.
    + rewrite lookup_insert_ne by congruence. exists l0. split; [exact H |].
      split; [split; auto | split; [apply incl_refl | auto]].
Qed.

Lemma shrinks_modify (t : nat) (f : Loc -> Loc) :
  (forall l, same_frame l (f l) /\ incl (l_hub (f l)) (l_hub l) /\
     (l_childrenAbortController l = None -> l_childrenAbortController (f l) = None) /\
     (l_attachedChildren l = None -> l_attachedChildren (f l) = None)) ->
  St_ok (fun _ => True) shrinks (st_modify_loc t f).
Proof.
  intros Hf. apply (st_modify_loc_ok _ _ shrinks_refl). intros w l _ Hl. split; [exact I |].
  destruct (Hf l) as (A & B & C & D). exact (shrinks_upd w t l (f l) Hl A B C D).
Qed.

Lemma shrinks_cascade (n : nat) :
  (forall id sid w, shrinks w (snd (dispose_d n id sid w))) /\
  (forall id w, shrinks w (snd (offline_d n id w))) /\
  (forall a w, shrinks w (snd (abort_d n a w))) /\
  (forall pid w, shrinks w (snd (childrenAggregateFired_d n pid w))).
Proof.
  induction n as [| n IH]; [split; [| split; [| split]]; intros; apply shrinks_refl |].
  destruct IH as (Hd & Ho & Ha & Hc).
  assert (Okd : forall id sid, St_ok (fun _ => True) shrinks (dispose_d n id sid))
    by (intros id sid w _; split; [exact I | apply Hd]).
  assert (Oka : forall a, St_ok (fun _ => True) shrinks (abort_d n a))
    by (intros a w _; split; [exact I | apply Ha]).
  split; [| split; [| split]].
  - intros id sid w. cbn [dispose_d]. unfold st_bind at 1, st_get at 1. cbv beta iota.
    destruct (heap w !! id) as [l |] eqn:Hl; [| apply shrinks_refl].
    unfold st_bind, st_upd. cbv beta iota.
    set (l' := set_hub (List.filter (fun e => negb (Nat.eqb (fst e) sid)) (l_hub l)) l).
    assert (S1 : shrinks w (upd_loc id l' w)).
    { apply (shrinks_upd w id l l' Hl); [repeat split | | auto | auto].
      intros x Hx. apply filter_In in Hx. tauto. }
    destruct (has_demand l && negb (has_demand l')); [eapply shrinks_trans; [exact S1 | apply Ho] | exact S1].
  - intros id w. cbn [offline_d]. unfold st_bind at 1, st_get at 1. cbv beta iota.
    destruct (heap w !! id) as [l |] eqn:Hl; [| apply shrinks_refl].
    refine (proj2 (_ w I)).
    apply st_bind_ok; [exact shrinks_trans | apply shrinks_modify | intros _].
    { intros l0. split; [repeat split | split; [apply incl_refl | auto]]. }
    apply st_bind_ok; [exact shrinks_trans | | intros _].
    { destruct (l_watchingParent l) as [a |]; [apply Oka | apply st_ret_ok, shrinks_refl]. }
    apply st_bind_ok; [exact shrinks_trans | | intros _].
    { apply st_upd_ok. intros w1 _. split; [exact I |].
      split; [reflexivity |]. split; [intros q i; cbn; rewrite lookup_delete_Some; tauto |].
      split; [cbn; intros i l' H; rewrite H; eauto |].
      intros i l0 H. exists l0. split; [exact H |]. split; [split; auto | split; [apply incl_refl | auto]]. }
    apply st_bind_ok; [exact shrinks_trans | apply shrinks_modify | intros _].
    { intros l0. split; [repeat split | split; [apply incl_refl | auto]]. }
    apply st_bind_ok; [exact shrinks_trans | apply st_get_ok, shrinks_refl | intros [l3 |]];
      [| apply st_ret_ok, shrinks_refl].
    destruct (l_sub l3) as [sub |]; [apply Okd | apply st_ret_ok, shrinks_refl].
  - intros a w. cbn [abort_d].
    destruct (existsb (Nat.eqb a) (aborted w)); [apply shrinks_refl |].
    assert (S1 : shrinks w (record_abort a w)).
    { split; [reflexivity |]. split; [auto |]. split; [cbn; intros i l' H; rewrite H; eauto |].
      intros i l0 H. exists l0. split; [exact H |]. split; [split; auto | split; [apply incl_refl | auto]]. }
    destruct (owner_of (record_abort a w) a) as [pid |]; [| exact S1].
    destruct (heap (record_abort a w) !! pid) as [p |]; [| exact S1].
    destruct (l_childrenAbortController p) as [ca |]; [| exact S1].
    destruct (all_aborted (record_abort a w) ca); [eapply shrinks_trans; [exact S1 | apply Hc] | exact S1].
  - intros pid w. cbn [childrenAggregateFired_d]. unfold st_bind at 1, st_get at 1. cbv beta iota.
    destruct (heap w !! pid) as [p |] eqn:Hp; [| apply shrinks_refl].
    destruct (l_childrenAbortController p) as [ca |]; [| apply shrinks_refl].
    unfold st_bind, st_upd. cbv beta iota.
    eapply shrinks_trans; [| apply Hd].
    apply (shrinks_upd w pid p _ Hp); [repeat split | apply incl_refl | auto | auto].
Qed.

(* ------------------------------------------------------------------ *)
(** ** Forwarding subscriptions kept while bringing locations online *)

Section Fwd.
Variable pid : nat.
Variable pp : string.

Local Abbreviation P8 := (fwd_inv pid pp).
Local Abbreviation Qo8 := (fwd_within pp).
Local Abbreviation Qa8 := (fwd_below pp).

Lemma keeps_refl (w : FSW) : keeps_fwd pid w w.
Proof.
  split; [lia |]. split; [intros i l H; exists l; split; [exact H | repeat split] |].
  intros l H. exists l. split; [exact H |]. split; [reflexivity |]. split; [reflexivity |].
  split; [reflexivity | auto].
Qed.

Lemma keeps_trans (w1 w2 w3 : FSW) : keeps_fwd pid w1 w2 -> keeps_fwd pid w2 w3 -> keeps_fwd pid w1 w3.
Proof.
  intros (N1 & F1 & K1) (N2 & F2 & K2). split; [lia |]. split.
  - intros i l H. destruct (F1 i l H) as (l2 & E2 & A2 & B2 & C2).
    destruct (F2 i l2 E2) as (l3 & E3 & A3 & B3 & C3).
    exists l3. split; [exact E3 |]. split; [congruence | split; congruence].
  - intros l H. destruct (K1 l H) as (l2 & E2 & A2 & B2 & C2 & D2).
    destruct (K2 l2 E2) as (l3 & E3 & A3 & B3 & C3 & D3).
    exists l3. split; [exact E3 |]. split; [congruence |]. split; [congruence |]. split; [congruence |].
    intros e He. destruct (D3 e He) as [Hi | Hi]; [destruct (D2 e Hi) as [Hj | Hj]; [auto | right; lia] | right; lia].
Qed.

Lemma Qo8_R (j : nat) (w w' : FSW) : Qo8 j w -> keeps_fwd pid w w' -> Qo8 j w'.
Proof.
  intros (l & Hl & Hn) (_ & F & _). destruct (F j l Hl) as (l' & Hl' & Hp & _).
  exists l'. rewrite Hp. auto.
Qed.

Lemma Qa8_R (j : nat) (w w' : FSW) : Qa8 j w -> keeps_fwd pid w w' -> Qa8 j w'.
Proof.
  intros (l & Hl & Hn) (_ & F & _). destruct (F j l Hl) as (l' & Hl' & Hp & _).
  exists l'. rewrite Hp. auto.
Qed.

Lemma Qa8_Qo8 (j : nat) (w : FSW) : Qa8 j w -> Qo8 j w.
Proof. intros (l & Hl & Hn). exists l. split; [exact Hl | lia]. Qed.

Lemma Qa8_ne (t : nat) (w : FSW) : P8 w -> Qa8 t w -> t <> pid.
Proof.
  intros [_ (l & Hl & Hp)] (l' & Hl' & Hn) ->. rewrite Hl in Hl'. injection Hl' as <-. subst. lia.
Qed.

(** Updating one object in place, keeping its path fields. *)
Lemma p8_upd (w : FSW) (t : nat) (l l' : Loc) :
  P8 w -> heap w !! t = Some l -> same_frame l l' ->
  (t = pid -> fwd_kept (next_id w) l l') ->
  P8 (upd_loc t l' w) /\ keeps_fwd pid w (upd_loc t l' w).
Proof.
  intros [(I1 & I2 & I3) (lp & Hlp & Hpp)] Ht (Fp & Fq & Fs) Hk. unfold upd_loc.
  split; [split; [split; [| split] |] | split; [cbn; lia | split]]; cbn [locations heap next_id].
  - intros q i Hq. destruct (I1 q i Hq) as (l0 & Hl0 & Hp0). destruct (decide (i = t)) as [-> | Hne].
    + rewrite lookup_insert_eq. exists l'. rewrite Ht in Hl0. injection Hl0 as <-. split; [reflexivity | congruence].
    + rewrite lookup_insert_ne by congruence. eauto.
  - intros i l0. destruct (decide (i = t)) as [-> | Hne]; [intros _; exact (I2 _ _ Ht) |].
    rewrite lookup_insert_ne by congruence. apply I2.
  - intros i l0. destruct (decide (i = t)) as [-> | Hne].
    + rewrite lookup_insert_eq. intros [= <-]. rewrite Fp, Fq. cbn. destruct (I3 _ _ Ht) as (A & B & C).
      split; [exact A |]. split; [exact B |]. rewrite Fs. exact C.
    + rewrite lookup_insert_ne by congruence. apply I3.
  - destruct (decide (pid = t)) as [-> | Hne].
    + exists l'. rewrite lookup_insert_eq. rewrite Ht in Hlp. injection Hlp as <-. split; [reflexivity | congruence].
    + exists lp. rewrite lookup_insert_ne by congruence. auto.
  - intros i l0 H0. destruct (decide (i = t)) as [-> | Hne].
    + rewrite lookup_insert_eq. rewrite Ht in H0. injection H0 as <-. exists l'. split; [reflexivity | repeat split; auto].
    + rewrite lookup_insert_ne by congruence. exists l0. split; [exact H0 | repeat split].
  - intros l0 H0. destruct (decide (pid = t)) as [-> | Hne].
    + rewrite lookup_insert_eq. rewrite Ht in H0. injection H0 as <-. exists l'. split; [reflexivity | auto].
    + rewrite lookup_insert_ne by congruence. exists l0. split; [exact H0 |].
      split; [reflexivity |]. split; [reflexivity |]. split; [reflexivity | auto].
Qed.

Lemma p8_upd_inv (w : FSW) (t : nat) (l l' : Loc) :
  P8 w -> heap w !! t = Some l -> same_frame l l' -> P8 (upd_loc t l' w).
Proof.
  intros H8 Ht Fr. destruct (decide (t = pid)) as [-> | Hne].
  - destruct H8 as [(I1 & I2 & I3) (lp & Hlp & Hpp)]. unfold upd_loc.
    destruct Fr as (Fp & Fq & Fs).
    split; [split; [| split] |]; cbn [locations heap next_id].
    + intros q i Hq. destruct (I1 q i Hq) as (l0 & Hl0 & Hp0). destruct (decide (i = pid)) as [-> | Hne].
      * rewrite lookup_insert_eq. exists l'. rewrite Ht in Hl0. injection Hl0 as <-. split; [reflexivity | congruence].
      * rewrite lookup_insert_ne by congruence. eauto.
    + intros i l0. destruct (decide (i = pid)) as [-> | Hne]; [intros _; exact (I2 _ _ Ht) |].
      rewrite lookup_insert_ne by congruence. apply I2.
    + intros i l0. destruct (decide (i = pid)) as [-> | Hne].
      * rewrite lookup_insert_eq. intros [= <-]. rewrite Fp, Fq, Fs. exact (I3 _ _ Ht).
      * rewrite lookup_insert_ne by congruence. apply I3.
    + exists l'. rewrite lookup_insert_eq. rewrite Ht in Hlp. injection Hlp as <-. split; [reflexivity | congruence].
  - apply (p8_upd w t l l' H8 Ht Fr). intros E. contradiction.
Qed.

Lemma p8_fresh (w : FSW) : P8 w -> P8 (fst (fresh w)) /\ keeps_fwd pid w (fst (fresh w)).
Proof.
  intros [(I1 & I2 & I3) Hp]. split; [split; [split; [exact I1 | split; [| exact I3]] | exact Hp] |].
  - intros i l H. specialize (I2 i l H). cbn. lia.
  - split; [cbn; lia |]. split; [intros i l H; exists l; split; [exact H | repeat split] |].
    intros l H. exists l. split; [exact H |]. split; [reflexivity |]. split; [reflexivity |].
    split; [reflexivity | auto].
Qed.

Lemma p8_subscribe (w : FSW) (t : nat) (ls : Listener) :
  P8 w -> (t = pid -> is_fwd (0, ls) = false) ->
  P8 (fst (subscribe w t ls)) /\ keeps_fwd pid w (fst (subscribe w t ls)).
Proof.
  intros H8 Hf. destruct (p8_fresh w H8) as [H1 K1].
  unfold subscribe. destruct (fresh w) as [w1 sid] eqn:Ef.
  assert (Hn : next_id w1 = S (next_id w) /\ sid = next_id w /\ heap w1 = heap w)
    by (unfold fresh in Ef; injection Ef as <- <-; auto).
  destruct Hn as (Hn & Hs & Hh). cbn [fst] in *.
  destruct (heap w1 !! t) as [l |] eqn:Hl; cbn [fst]; [| split; assumption].
  split; [exact (p8_upd_inv w1 t l (set_hub (app (l_hub l) [(sid, ls)]) l) H1 Hl ltac:(repeat split)) |].
  unfold upd_loc. split; [cbn; lia |]. cbn [heap]. split.
  - intros i l0 H0. rewrite <- Hh in H0. destruct (decide (i = t)) as [-> | Hne].
    + rewrite Hl in H0. injection H0 as <-. rewrite lookup_insert_eq. eexists. split; [reflexivity | repeat split].
    + rewrite lookup_insert_ne by congruence. exists l0. split; [exact H0 | repeat split].
  - intros l0 H0. rewrite <- Hh in H0. destruct (decide (pid = t)) as [-> | Hne].
    + rewrite Hl in H0. injection H0 as <-. rewrite lookup_insert_eq.
      eexists. split; [reflexivity |]. split; [reflexivity |]. split; [reflexivity |].
      cbn [l_hub set_hub]. rewrite List.filter_app. specialize (Hf eq_refl). unfold is_fwd in Hf |- *.
      cbn in Hf |- *. rewrite Hf, app_nil_r. split; [reflexivity |].
      intros x Hx. apply in_app_or in Hx as [Hx | [<- | []]]; [auto | right; cbn; lia].
    + rewrite lookup_insert_ne by congruence. exists l0. split; [exact H0 |].
      split; [reflexivity |]. split; [reflexivity |]. split; [reflexivity | auto].
Qed.

Lemma p8_ensure (env : Env) (w : FSW) (p : string) :
  P8 w -> (locations w !! p = None -> is_abs p = true) ->
  P8 (fst (ensureLocation env w p)) /\ keeps_fwd pid w (fst (ensureLocation env w p)) /\
  exists l, heap (fst (ensureLocation env w p)) !! snd (ensureLocation env w p) = Some l /\ l_path l = p.
Proof.
  intros H8 Ha. unfold ensureLocation.
  destruct (locations w !! p) as [j |] eqn:E; cbn [fst snd].
  { split; [exact H8 |]. split; [apply keeps_refl |]. destruct H8 as [(I1 & _) _]. exact (I1 p j E). }
  specialize (Ha eq_refl).
  destruct H8 as [(I1 & I2 & I3) (lp & Hlp & Hpp)].
  assert (Hfr : forall i l, heap w !! i = Some l -> next_id w <> i) by (intros i l H E0; subst i; specialize (I2 _ _ H); lia).
  split; [split; [split; [| split] |] | split; [split; [cbn; lia | split] |]]; cbn [locations heap next_id].
  - intros q i Hq. destruct (decide (q = p)) as [-> | Hne].
    + rewrite lookup_insert_eq in Hq. injection Hq as <-. rewrite lookup_insert_eq. eexists. split; [reflexivity | reflexivity].
    + rewrite lookup_insert_ne in Hq by congruence. destruct (I1 q i Hq) as (l & Hl & Hp).
      exists l. rewrite lookup_insert_ne; [auto | exact (Hfr _ _ Hl)].
  - intros i l. destruct (decide (i = next_id w)) as [-> | Hne]; [lia |].
    rewrite lookup_insert_ne by congruence. intros H. specialize (I2 _ _ H). lia.
  - intros i l. destruct (decide (i = next_id w)) as [-> | Hne].
    + rewrite lookup_insert_eq. intros [= <-]. cbn. split; [exact Ha |]. split; [reflexivity |].
      destruct (String.eqb p (env_homedir env)); cbn; [discriminate |].
      destruct (String.eqb_spec (Path.dirname p) "/"); cbn; [discriminate | auto].
    + rewrite lookup_insert_ne by congruence. apply I3.
  - exists lp. rewrite lookup_insert_ne; [auto | exact (Hfr _ _ Hlp)].
  - intros i l H. exists l. rewrite lookup_insert_ne; [split; [exact H | repeat split] | exact (Hfr _ _ H)].
  - intros l H. exists l. rewrite lookup_insert_ne; [| exact (Hfr _ _ H)]. split; [exact H |].
    split; [reflexivity |]. split; [reflexivity |]. split; [reflexivity | auto].
  - rewrite lookup_insert_eq. eexists. split; reflexivity.
Qed.

Lemma initializeEntries_frame (env : Env) (l l' : Loc) :
  initializeEntries env l = Ok l' -> same_frame l l' /\ fwd_kept 0 l l' /\ l_hub l' = l_hub l.
Proof.
  unfold initializeEntries. destruct (isFile l || negb (exists_ l)).
  - intros [= <-]. split; [repeat split |]. split; [| reflexivity]. split; [reflexivity |]. split; [reflexivity |]. split; auto.
  - destruct (env_readdir env (l_path l)); [| discriminate].
    destruct (_ || _); [discriminate |].
    destruct (classifyEntries _ _ _ _). intros [= <-].
    split; [repeat split |]. split; [| reflexivity]. split; [reflexivity |]. split; [reflexivity |]. split; auto.
Qed.

Lemma online_d_fwd (n : nat) (env : Env) (j : nat) :
  St_ok (fun w => P8 w /\ Qo8 j w) (keeps_fwd pid) (online_d n env j).
Proof.
  apply (online_d_ok env P8 (keeps_fwd pid) keeps_refl keeps_trans Qo8 Qa8 Qo8_R Qa8_R Qa8_Qo8);
    clear j.
  - exact p8_fresh.
  - intros t c a w l H8 Hq Hl. apply (p8_upd w t l _ H8 Hl); [repeat split |].
    intros Ht. exfalso. exact (Qa8_ne t w H8 Hq Ht).
  - intros t w H8 Hq. apply (p8_subscribe w t LForward H8). intros Ht. exfalso. exact (Qa8_ne t w H8 Hq Ht).
  - intros j l st w H8 _ Hl _.
    destruct (p8_upd w j l (set_stats st l) H8 Hl) as [P1 K1];
      [repeat split | intros _; split; [reflexivity |]; split; [reflexivity |]; split; auto |].
    split; [exact P1 |]. split; [exact K1 |].
    intros w2 Hm. unfold modify_loc in Hm. unfold upd_loc at 1 in Hm. cbn [heap] in Hm.
    rewrite lookup_insert_eq in Hm.
    destruct (initializeEntries env (set_stats st l)) as [l' |] eqn:Hi; [| discriminate].
    cbn in Hm. injection Hm as <-.
    destruct (initializeEntries_frame env _ l' Hi) as (Fr & (a & b & c & _) & Hhub).
    assert (Hl1 : heap (upd_loc j (set_stats st l) w) !! j = Some (set_stats st l))
      by (unfold upd_loc; cbn [heap]; apply lookup_insert_eq).
    destruct (p8_upd _ j _ l' P1 Hl1 Fr) as [P2 K2].
    { intros _. split; [exact a |]. split; [exact b |]. split; [exact c |].
      intros x Hx. left. rewrite <- Hhub. exact Hx. }
    split; [exact P2 |]. split; [exact K2 |].
    intros w3 Hw. set (w2 := upd_loc j l' (upd_loc j (set_stats st l) w)) in *.
    assert (Hl2 : heap w2 !! j = Some l') by (unfold w2, upd_loc; cbn [heap]; apply lookup_insert_eq).
    revert Hw. unfold initializeWatcher. rewrite Hl2.
    destruct (isFile l'); [intros [= <-]; split; [exact P2 | apply keeps_refl] |].
    destruct (l_watcher l'); [discriminate |].
    destruct (env_watch env (l_path l')); [discriminate |].
    intros [= <-].
    destruct (p8_fresh w2 P2) as [P3 K3].
    assert (Hl3 : heap (fst (fresh w2)) !! j = Some l') by exact Hl2.
    destruct (p8_upd _ j l' (set_watcher (Some (mkHandle (snd (fresh w2)) true)) l') P3 Hl3) as [P4 K4];
      [repeat split | intros _; split; [reflexivity |]; split; [reflexivity |]; split; auto |].
    split.
    + destruct P4 as [(A & B & C) E]. split; [split; [exact A | split; [exact B | exact C]] | exact E].
    + pose proof (keeps_trans _ _ _ K3 K4) as K5.
      destruct K5 as (N & F & K). split; [exact N |]. split; [exact F | exact K].
  - intros j sig w l H8 _ Hl. apply (p8_upd w j l _ H8 Hl); [repeat split |].
    intros _. split; [reflexivity |]. split; [reflexivity |]. split; auto.
  - intros j w l H8 (l0 & Hl0 & Hn) Hl Hs. rewrite Hl in Hl0. injection Hl0 as <-.
    destruct H8 as [(I1 & I2 & I3) Hpid] eqn:E8.
    destruct (I3 j l Hl) as (Ha & Hd & Hw). specialize (Hw Hs).
    rewrite Hd in Hw. destruct (dirname_abs _ Ha Hw) as [Ha' Hlt]. rewrite <- Hd in Ha', Hlt.
    destruct (p8_ensure env w (l_parentPath l) ltac:(assumption) (fun _ => Ha')) as (A & B & l' & C & D).
    split; [exact A |]. split; [exact B |]. exists l'. rewrite D. split; [exact C | lia].
  - intros j w H8 _. apply (p8_subscribe w j LSelf H8). intros _. reflexivity.
  - intros j s w l H8 _ Hl. apply (p8_upd w j l _ H8 Hl); [repeat split |].
    intros _. split; [reflexivity |]. split; [reflexivity |]. split; auto.
Qed.
End Fwd.

(* ------------------------------------------------------------------ *)
(** ** The forwarding subscription of the demand-driven [attachChild] *)

Lemma st_bind_done {A B} (m : St A) (k : A -> St B) (w w' : FSW) (b : B) :
  st_bind m k w = (Done b, w') -> exists a w1, m w = (Done a, w1) /\ k a w1 = (Done b, w').
Proof. unfold st_bind. destruct (m w) as [[a | e] w1]; [eauto | discriminate]. Qed.

Lemma heap_upd_loc (w : FSW) (id : nat) (l : Loc) : heap (upd_loc id l w) !! id = Some l.
Proof. unfold upd_loc. cbn [heap]. apply lookup_insert_eq. Qed.

Lemma attachChild_d_first (n : nat) (env : Env) (w w' : FSW) (pid cid : nat) (cpath : string)
    (sig : nat) (p : Loc) :
  loc_inv w -> heap w !! pid = Some p -> l_childrenAbortController p = None ->
  attachChild_d (online_d n env) pid cid cpath sig w = (Done tt, w') ->
  next_id w <= next_id w' /\
  exists p' aid, heap w' !! pid = Some p' /\
    l_childrenAbortController p' = Some (mkChildrenAgg aid [sig] (next_id w)) /\
    l_attachedChildren p' = Some (map_set cpath cid (default [] (l_attachedChildren p))) /\
    List.filter is_fwd (l_hub p') = app (List.filter is_fwd (l_hub p)) [(next_id w, LForward)] /\
    (forall e, In e (l_hub p') -> In e (l_hub p) \/ next_id w <= fst e).
Proof.
  intros Hinv Hp Hca H. unfold attachChild_d in H.
  apply st_bind_done in H as (op & wa & Ha & H). unfold st_get in Ha. injection Ha as <- <-. rewrite Hp in H.
  apply st_bind_done in H as ([] & w1 & H1 & H). unfold st_modify_loc, st_upd in H1. rewrite Hp in H1.
  injection H1 as <-.
  set (p1 := set_children (Some (default [] (l_attachedChildren p))) (l_childrenAbortController p) p) in *.
  set (w1 := upd_loc pid p1 w) in *.
  rewrite Hca in H.
  apply st_bind_done in H as (ca & w5 & H5 & H).
  apply st_bind_done in H5 as (sub & w3 & H3 & H5).
  apply st_bind_done in H5 as (aid & w4 & H4 & H5). unfold st_fresh in H4. injection H4 as <- <-.
  apply st_bind_done in H5 as ([] & w5' & H5' & H5). unfold st_ret in H5. injection H5 as <- <-.
  unfold subscribe_d in H3.
  apply st_bind_done in H3 as (ol & wb & Hb & H3). unfold st_get in Hb. injection Hb as <- <-.
  apply st_bind_done in H3 as (sid & w2 & H2 & H3). unfold st_subscribe in H2. injection H2 as <- <-.
  apply st_bind_done in H3 as ([] & w3' & H3' & H3). unfold st_ret in H3. injection H3 as <- <-.
  assert (Hl1 : heap w1 !! pid = Some p1) by (unfold w1, upd_loc; cbn [heap]; apply lookup_insert_eq).
  rewrite lookup_insert_eq in H3'.
  assert (P0 : fwd_inv pid (l_path p) w) by (split; [exact Hinv | exists p; auto]).
  assert (P1 : fwd_inv pid (l_path p) w1) by exact (p8_upd_inv pid (l_path p) w pid p p1 P0 Hp ltac:(repeat split)).
  set (p2 := set_hub (app (l_hub p1) [(next_id w1, LForward)]) p1).
  assert (E2 : subscribe w1 pid LForward = (upd_loc pid p2 (fst (fresh w1)), next_id w1))
    by (unfold subscribe; cbn [fst snd fresh heap]; rewrite Hl1; reflexivity).
  rewrite E2 in H3'. cbn [fst snd] in H3'.
  set (w2 := upd_loc pid p2 (fst (fresh w1))) in *.
  assert (P2 : fwd_inv pid (l_path p) w2).
  { destruct (p8_fresh pid (l_path p) w1 P1) as [Pf _].
    exact (p8_upd_inv pid (l_path p) _ pid p1 p2 Pf Hl1 ltac:(repeat split)). }
  assert (Hl2 : heap w2 !! pid = Some p2) by (unfold w2, upd_loc; cbn [heap]; apply lookup_insert_eq).
  assert (K3 : keeps_fwd pid w2 w3').
  { destruct (negb (has_demand p1) && is_demand (next_id w1, LForward)).
      destruct (online_d_fwd pid (l_path p) n env pid w2 (conj P2 (ex_intro _ p2 (conj Hl2 (le_n _))))) as [_ K].
      rewrite H3' in K. exact K.
    - unfold st_ret in H3'. injection H3' as <-. apply keeps_refl. }
  destruct K3 as (N3 & _ & K3). destruct (K3 p2 Hl2) as (p3 & Hl3 & Ka & Kc & Kf & Ke).
  assert (Hl3' : heap (fst (fresh w3')) !! pid = Some p3) by exact Hl3.
  unfold st_modify_loc, st_upd in H5'. cbv beta in H5'. cbn [heap] in H5'. rewrite Hl3 in H5'. injection H5' as <-.
  unfold st_modify_loc, st_upd in H. cbv beta in H. rewrite heap_upd_loc in H. rewrite E2 in H. cbn [snd] in H.
  injection H as <-.
  assert (Hn1 : next_id w1 = next_id w) by reflexivity.
  assert (Hn2 : next_id w2 = S (next_id w1)) by reflexivity.
  split; [cbn; lia |].
  eexists _, _. split; [unfold upd_loc; cbn [heap]; apply lookup_insert_eq |].
  cbn [l_childrenAbortController l_attachedChildren l_hub set_children ca_id ca_signals ca_sub].
  split; [reflexivity |].
  rewrite Kc. unfold p2, p1. cbn [l_attachedChildren set_hub set_children default]. split; [reflexivity |].
  rewrite Kf. unfold p2, p1. cbn [l_hub set_hub set_children]. rewrite Hn1. split; [rewrite List.filter_app; reflexivity |].
  intros x Hx. destruct (Ke x Hx) as [Hx' | Hx']; [| right; lia].
  unfold p2, p1 in Hx'. cbn [l_hub set_hub set_children] in Hx'. apply in_app_or in Hx' as [Hx' | [<- | []]]; [auto | right; cbn; lia].
Qed.

Lemma upd_loc_twice (w : FSW) (id : nat) (a b : Loc) : upd_loc id a (upd_loc id b w) = upd_loc id a w.
Proof. unfold upd_loc. cbn [locations heap next_id aborted opened delivered]. rewrite insert_insert_eq. reflexivity. Qed.

Lemma attachChild_d_again (online_ : nat -> St unit) (w : FSW) (pid cid : nat) (cpath : string)
    (sig : nat) (p : Loc) (ca : ChildrenAgg) :
  heap w !! pid = Some p -> l_childrenAbortController p = Some ca ->
  attachChild_d online_ pid cid cpath sig w =
    (Done tt, upd_loc pid (set_children (Some (map_set cpath cid (default [] (l_attachedChildren p))))
                 (Some (mkChildrenAgg (ca_id ca) (app (ca_signals ca) [sig]) (ca_sub ca))) p) w).
Proof.
  intros Hp Hca. unfold attachChild_d, st_bind, st_get. rewrite Hp, Hca.
  unfold st_modify_loc, st_upd, st_ret. rewrite Hp. cbv beta iota. rewrite heap_upd_loc.
  rewrite upd_loc_twice. reflexivity.
Qed.

Lemma loc_inv_shrinks (w w' : FSW) : loc_inv w -> shrinks w w' -> loc_inv w'.
Proof.
  intros (I1 & I2 & I3) (N & L & D & H). split; [| split].
  - intros q i Hq. destruct (I1 q i (L q i Hq)) as (l & Hl & Hp).
    destruct (H i l Hl) as (l' & Hl' & (Fp & _) & _). exists l'. split; [exact Hl' | congruence].
  - intros i l' Hl'. destruct (D i l' Hl') as [l Hl]. rewrite N. exact (I2 i l Hl).
  - intros i l' Hl'. destruct (D i l' Hl') as [l Hl]. destruct (H i l Hl) as (l'' & E & (Fp & Fq & Fs) & _).
    rewrite Hl' in E. injection E as <-. rewrite Fp, Fq, Fs. exact (I3 i l Hl).
Qed.

Lemma childrenAggregateFired_d_at (m : nat) (w : FSW) (pid : nat) (p : Loc) (ca : ChildrenAgg) :
  heap w !! pid = Some p -> l_childrenAbortController p = Some ca ->
  shrinks w (snd (childrenAggregateFired_d (S (S m)) pid w)) /\
  exists p', heap (snd (childrenAggregateFired_d (S (S m)) pid w)) !! pid = Some p' /\
    l_childrenAbortController p' = None /\ l_attachedChildren p' = None /\
    ~ In (ca_sub ca) (map fst (l_hub p')).
Proof.
  intros Hp Hca. split; [apply (shrinks_cascade (S (S m))) |].
  destruct (shrinks_cascade m) as (_ & Ho & _).
  cbn [childrenAggregateFired_d]. unfold st_bind at 1, st_get at 1. cbv beta iota. rewrite Hp, Hca.
  unfold st_bind at 1, st_upd at 1. cbv beta iota.
  cbn [dispose_d]. unfold st_bind at 1, st_get at 1. cbv beta iota. rewrite heap_upd_loc.
  unfold st_bind at 1, st_upd at 1. cbv beta iota.
  set (l' := set_hub (List.filter (fun e => negb (Nat.eqb (fst e) (ca_sub ca)))
                        (l_hub (set_children None None p))) (set_children None None p)).
  assert (Hout : ~ In (ca_sub ca) (map fst (l_hub l'))).
  { intros Hin. apply in_map_iff in Hin as ([x ls] & Hx & Hin). cbn in Hx. subst x.
    unfold l' in Hin. cbn [l_hub set_hub] in Hin. apply filter_In in Hin as [_ Hf].
    cbn in Hf. rewrite Nat.eqb_refl in Hf. discriminate. }
  set (w2 := upd_loc pid l' (upd_loc pid (set_children None None p) w)).
  assert (Hl2 : heap w2 !! pid = Some l') by apply heap_upd_loc.
  assert (Hfin : forall w3, shrinks w2 w3 -> exists p', heap w3 !! pid = Some p' /\
            l_childrenAbortController p' = None /\ l_attachedChildren p' = None /\
            ~ In (ca_sub ca) (map fst (l_hub p'))).
  { intros w3 (_ & _ & _ & Hs). destruct (Hs pid l' Hl2) as (p' & E & _ & I & A & C).
    exists p'. split; [exact E |]. split; [apply A; reflexivity |]. split; [apply C; reflexivity |].
    intros Hin. apply Hout. apply in_map_iff in Hin as (e & He & Hin). apply in_map_iff. exists e. auto. }
  destruct (_ && _); [apply Hfin, Ho | apply Hfin, shrinks_refl].
Qed.


Lemma loc_inv_b_sound (w : FSW) : loc_inv_b w = true -> loc_inv w.
Proof.
  unfold loc_inv_b. intros H. apply andb_true_iff in H as [H1 H2].
  rewrite forallb_forall in H1, H2. split; [| split].
  - intros q i Hq. apply elem_of_map_to_list, list_elem_of_In in Hq. specialize (H1 _ Hq).
    cbn [fst snd] in H1. destruct (heap w !! i) as [l |]; [| discriminate].
    exists l. split; [reflexivity |]. apply String.eqb_eq, H1.
  - intros i l Hl. apply elem_of_map_to_list, list_elem_of_In in Hl. specialize (H2 _ Hl).
    cbn [fst snd] in H2. apply andb_true_iff in H2 as [H2 _]. apply andb_true_iff in H2 as [H2 _].
    apply andb_true_iff in H2 as [H2 _]. apply Nat.ltb_lt, H2.
  - intros i l Hl. apply elem_of_map_to_list, list_elem_of_In in Hl. specialize (H2 _ Hl).
    cbn [fst snd] in H2. apply andb_true_iff in H2 as [H2 H5]. apply andb_true_iff in H2 as [H2 H4].
    apply andb_true_iff in H2 as [_ H3]. split; [exact H3 |]. split; [apply String.eqb_eq, H4 |].
    intros Hs. rewrite Hs in H5. cbn [negb orb] in H5. apply negb_true_iff, String.eqb_neq in H5. exact H5.
Qed.


